(** * web-test-agent: the runner (src/runner.ts) and its schema (src/schema.ts)

    A shallow embedding of the step executor, the signal collector and the
    tolerance evaluator of [run], and the properties of the verdict they
    compute.  The browser (Playwright), the RegExp engine, the URL resolver,
    the file system and the clock are interfaces the runner calls into; they
    are parameters of the development.  The report texts of the runner and
    the step editing of the test builder (WebTestBuilderUI.tsx) follow. *)

From Stdlib Require Import List String Ascii ZArith Lia Bool DecimalString.
From stdpp Require Import list.
Import ListNotations.

Local Open Scope string_scope.
Local Open Scope list_scope.

(* ===================================================================== *)
(** ** The JavaScript runtime pieces the runner relies on *)
(* ===================================================================== *)

Module Js.

(** A thrown value.  Everything the runner and Playwright throw is an
    [Error] object, of which the runner reads the [message] only. *)
Record JsError := Error { message : string }.

(** The completion of a call: a value, or a thrown error. *)
Inductive Exc (A : Type) : Type :=
| Ok (a : A)
| Throw (e : JsError).
Arguments Ok {A} a.
Arguments Throw {A} e.

Definition bindE {A B} (m : Exc A) (k : A -> Exc B) : Exc B :=
  match m with
  | Ok a => k a
  | Throw e => Throw e
  end.

(** [try { body } catch (e) { handler e }] *)
Definition tryE {A} (body : Exc A) (handler : JsError -> Exc A) : Exc A :=
  match body with
  | Ok a => Ok a
  | Throw e => handler e
  end.

(** [a ?? b] *)
Definition nullish {A} (a : option A) (b : A) : A :=
  match a with
  | Some x => x
  | None => b
  end.

(** [a ?? b] where [b] may itself be [undefined]. *)
Definition nullish_opt {A} (a b : option A) : option A :=
  match a with
  | Some x => Some x
  | None => b
  end.

(** Truthiness of an optional boolean: [undefined] and [false] are falsy. *)
Definition truthy (b : option bool) : bool :=
  match b with
  | Some true => true
  | _ => false
  end.

(** [!s] for an optional string: [undefined] and the empty string. *)
Definition falsy_string (s : option string) : bool :=
  match s with
  | None => true
  | Some EmptyString => true
  | Some _ => false
  end.

(** [text.includes(p)]: [p] occurs in [text] as a contiguous substring. *)
Fixpoint includes (text p : string) : bool :=
  if String.prefix p text then true
  else match text with
       | EmptyString => false
       | String _ rest => includes rest p
       end.

(** [Array.prototype.some] with a callback that may throw: stops at the
    first element for which the callback is true, or at the first throw. *)
Fixpoint Array_some {A} (cb : A -> Exc bool) (xs : list A) : Exc bool :=
  match xs with
  | [] => Ok false
  | x :: rest =>
      bindE (cb x) (fun b => if b then Ok true else Array_some cb rest)
  end.

(** [Array.prototype.filter] with a callback that may throw. *)
Fixpoint Array_filter {A} (cb : A -> Exc bool) (xs : list A) : Exc (list A) :=
  match xs with
  | [] => Ok []
  | x :: rest =>
      bindE (cb x) (fun keep =>
      bindE (Array_filter cb rest) (fun kept =>
      Ok (if keep then x :: kept else kept)))
  end.

(** [`${n}`] for a non-negative integer. *)
Definition of_nat (n : nat) : string :=
  NilZero.string_of_uint (Nat.to_uint n).

(** [s.toLowerCase()] on the ASCII letters. *)
Definition lower (c : ascii) : ascii :=
  let n := nat_of_ascii c in
  if (65 <=? n)%nat && (n <=? 90)%nat then ascii_of_nat (n + 32) else c.

Fixpoint toLowerCase (s : string) : string :=
  match s with
  | EmptyString => EmptyString
  | String c rest => String (lower c) (toLowerCase rest)
  end.

(** The class [[a-z0-9]]. *)
Definition is_slug_char (c : ascii) : bool :=
  let n := nat_of_ascii c in
  ((97 <=? n)%nat && (n <=? 122)%nat) || ((48 <=? n)%nat && (n <=? 57)%nat).

(** [s.replace(/[^a-z0-9]+/g, "-")]: every maximal run of characters
    outside the class becomes one dash; [in_run] tells that the dash of
    the current run was already emitted. *)
Fixpoint dash_runs (in_run : bool) (s : string) : string :=
  match s with
  | EmptyString => EmptyString
  | String c rest =>
      if is_slug_char c then String c (dash_runs false rest)
      else if in_run then dash_runs true rest
      else String "-" (dash_runs true rest)
  end.

Definition drop_leading_dash (s : string) : string :=
  match s with
  | String "-" rest => rest
  | _ => s
  end.

Fixpoint drop_trailing_dash (s : string) : string :=
  match s with
  | EmptyString => EmptyString
  | String c EmptyString => if Ascii.eqb c "-" then EmptyString else s
  | String c rest => String c (drop_trailing_dash rest)
  end.

(** [s.replace(/[:.]/g, "-")] *)
Fixpoint dash_colons_dots (s : string) : string :=
  match s with
  | EmptyString => EmptyString
  | String c rest =>
      String (if Ascii.eqb c ":" || Ascii.eqb c "." then "-"%char else c)
             (dash_colons_dots rest)
  end.

(** The double quote character, for messages that quote a text. *)
Definition dquote : string := String (ascii_of_nat 34) EmptyString.

End Js.

Import Js.

Declare Scope exc_scope.
Delimit Scope exc_scope with exc.
Notation "'let*' x ':=' m 'in' k" := (bindE m (fun x => k))
  (at level 10, x name, m at level 100, k at level 200) : exc_scope.
Notation "'run*' m 'in' k" := (bindE m (fun _ => k))
  (at level 10, m at level 100, k at level 200) : exc_scope.

(** [function slugify(s)]:
    [s.toLowerCase().replace(/[^a-z0-9]+/g, "-").replace(/(^-|-$)/g, "")] *)
Definition slugify (s : string) : string :=
  drop_trailing_dash (drop_leading_dash (dash_runs false (toLowerCase s))).

Example slugify_login :
  slugify "Login - wrong password shows error" = "login-wrong-password-shows-error".
Proof. reflexivity. Qed.

Example slugify_edges : slugify "  After Submit! " = "after-submit".
Proof. reflexivity. Qed.

(** The shape of a slug: characters of [[a-z0-9]] and single dashes;
    [after_dash] tells that the previous character was a dash (or that the
    string starts here), so that no dash may come next. *)
Fixpoint slugShape (after_dash : bool) (s : string) : bool :=
  match s with
  | EmptyString => true
  | String c rest =>
      if Ascii.eqb c "-" then negb after_dash && slugShape true rest
      else is_slug_char c && slugShape false rest
  end.

Fixpoint endsWithDash (s : string) : bool :=
  match s with
  | EmptyString => false
  | String c EmptyString => Ascii.eqb c "-"
  | String _ rest => endsWithDash rest
  end.

(** Every character of [s] satisfies [f]. *)
Fixpoint allChars (f : ascii -> bool) (s : string) : bool :=
  match s with
  | EmptyString => true
  | String c rest => f c && allChars f rest
  end.

(* ===================================================================== *)
(** ** schema.ts: steps, tolerance policy, test definition *)
(* ===================================================================== *)

Inductive SelectorState := visible | hidden | attached | detached.

(** [StepSchema]: the discriminated union over [action]. *)
Inductive Step :=
| NavigateStep (url path : option string)
| ClickStep (selector : string)
| TypeStep (selector text : string) (pressEnter : option bool)
| FillStep (selector text : string)
| WaitForSelectorStep (selector : string) (state : option SelectorState)
    (timeoutMs : option Z)
| ExpectVisibleStep (selector : string) (timeoutMs : option Z)
| ExpectTextStep (selector text : string) (timeoutMs : option Z)
| WaitMsStep (ms : Z)
| ScreenshotStep (name : option string).

(** [TolerateSchema]: every field is optional.  The numbers of
    [httpStatusAllowlist] are compared with response statuses, which are
    integers; they are integers here. *)
Module Tolerate.
Record t := mk {
  httpErrors : option bool;
  consoleErrors : option bool;
  pageErrors : option bool;
  requestFailures : option bool;
  httpStatusAllowlist : option (list Z);
  httpUrlAllowlist : option (list string);
  consolePatternAllowlist : option (list string)
}.
(** The object [{}] that stands for an absent [tolerate]. *)
Definition empty : t := mk None None None None None None None.
End Tolerate.

(** [TestSchema]; [steps] has at least one element once validated. *)
Module TestDef.
Record t := mk {
  name : string;
  description : option string;
  baseUrl : option string;
  steps : list Step;
  tolerate : option Tolerate.t
}.
End TestDef.

(** The command line: [argv] of runner.ts. *)
Module Argv.
Record t := mk {
  test : string;
  baseUrl : option string;
  outDir : string;
  headless : bool;
  slowMo : Z;
  ignoreHttpErrors : bool;
  ignoreConsoleErrors : bool;
  ignorePageErrors : bool;
  ignoreRequestFailures : bool
}.
End Argv.

(* ===================================================================== *)
(** ** Signals and step errors: the element types of the five arrays *)
(* ===================================================================== *)

Module ConsoleError.
Record t := mk { type : string; text : string; location : string }.
End ConsoleError.

Module RequestFailure.
Record t := mk { url : string; method : string; failure : string }.
End RequestFailure.

Module HttpError.
Record t := mk { url : string; status : Z; statusText : string }.
End HttpError.

Module StepError.
Record t := mk {
  index : nat;
  step : Step;
  message : string;
  screenshot : option string
}.
End StepError.

(** [summary.counts] *)
Module Counts.
Record t := mk {
  stepErrors : nat;
  pageErrors : nat;
  consoleErrors : nat;
  httpErrors : nat;
  requestFailures : nat
}.
End Counts.

(** The [summary] object written to result.json. *)
Module Summary.
Record t := mk {
  testName : string;
  description : option string;
  baseUrl : string;
  timestamp : string;
  success : bool;
  counts : Counts.t;
  stepErrors : list StepError.t;
  pageErrors : list string;
  consoleErrors : list ConsoleError.t;
  httpErrors : list HttpError.t;
  requestFailures : list RequestFailure.t
}.
End Summary.

(* ===================================================================== *)
(** ** The interfaces the runner calls into *)
(* ===================================================================== *)

(** What the page reports to its listeners. *)
Inductive Event :=
| console (type text location : string)
| pageerror (err : string)
| requestfailed (url method : string) (errorText : option string)
| response (url : string) (status : Z) (statusText : string).

(** One awaited Playwright call: the page afterwards, the events delivered
    to the listeners while the call was pending, and how the call settled. *)
Record Reply (Page A : Type) := reply {
  after : Page;
  emitted : list Event;
  settled : Exc A
}.
Arguments reply {Page A}.
Arguments after {Page A}.
Arguments emitted {Page A}.
Arguments settled {Page A}.

(** The part of Playwright's [Page] that [doStep] uses. *)
Class Playwright (Page : Type) := {
  page_goto : string -> Page -> Reply Page unit;
  page_click : string -> Page -> Reply Page unit;
  page_fill : string -> string -> Page -> Reply Page unit;
  page_type : string -> string -> Page -> Reply Page unit;
  keyboard_press : string -> Page -> Reply Page unit;
  page_waitForSelector :
    string -> SelectorState -> Z -> Page -> Reply Page unit;
  page_textContent : string -> Page -> Reply Page (option string);
  page_waitForTimeout : Z -> Page -> Reply Page unit;
  page_screenshot : string -> Page -> Reply Page unit
}.

(** [new RegExp(p, "i")], which throws on a malformed pattern, and
    [re.test(text)]. *)
Class RegExpEngine := {
  RegExp : Type;
  RegExp_new : string -> Exc RegExp;
  RegExp_test : RegExp -> string -> bool
}.

(** Node and the libraries around the browser session. *)
Class Host (Page : Type) := {
  (** [new URL(p, base).toString()] *)
  URL_resolve : string -> string -> Exc string;
  path_join : string -> string -> string;
  (** [fsp.readFile], [YAML.parse] and [TestSchema.parse] of the test file *)
  loadTest : string -> Exc TestDef.t;
  (** the n-th [new Date().toISOString()] of the process *)
  toISOString : nat -> string;
  ensureDir : string -> Exc unit;
  (** [chromium.launch], [newContext] and [newPage] *)
  launch : bool -> Z -> Exc Page;
  browser_close : Page -> Exc unit;
  writeFile : string -> string -> Exc unit;
  JSON_stringify : Summary.t -> string;
  buildBuilderPrompt : Summary.t -> string;
  buildTLDR : Summary.t -> string
}.

(* ===================================================================== *)
(** ** The report texts of runner.ts *)
(* ===================================================================== *)

Module Report.

(** The line break of the template literals. *)
Definition nl : string := String (ascii_of_nat 10) EmptyString.

(** [`${b}`] for a boolean *)
Definition of_bool (b : bool) : string := if b then "true" else "false".

(** [`${n}`] for an integer *)
Definition of_Z (z : Z) : string := NilZero.string_of_int (Z.to_int z).

(** [Array.prototype.join] *)
Definition join (sep : string) (parts : list string) : string :=
  String.concat sep parts.

(** [function buildTLDR(s)] *)
Definition buildTLDR (s : Summary.t) : string :=
  join nl
    [ ("Test: " ++ Summary.testName s)%string;
      ("Base URL: " ++ Summary.baseUrl s)%string;
      ("When: " ++ Summary.timestamp s)%string;
      ("Success: " ++ of_bool (Summary.success s))%string;
      ("Counts: step=" ++ Js.of_nat (Counts.stepErrors (Summary.counts s))
         ++ ", page=" ++ Js.of_nat (Counts.pageErrors (Summary.counts s))
         ++ ", console="
         ++ Js.of_nat (Counts.consoleErrors (Summary.counts s))
         ++ ", http=" ++ Js.of_nat (Counts.httpErrors (Summary.counts s))
         ++ ", reqFail="
         ++ Js.of_nat (Counts.requestFailures (Summary.counts s)))%string ].

(** One item of [reproduction]; [stringify] is
    [JSON.stringify(step, null, 2)]. *)
Definition reproductionItem (stringify : Step -> string) (idx : nat)
  (e : StepError.t) : string :=
  (Js.of_nat (idx + 1) ++ ". Step " ++ Js.of_nat (StepError.index e)
     ++ " failed: " ++ StepError.message e ++ nl ++ nl
     ++ "<step>" ++ stringify (StepError.step e) ++ "</step>" ++ nl
     ++ (if falsy_string (StepError.screenshot e) then ""
         else "Screenshot: " ++ nullish (StepError.screenshot e) ""))%string.

(** [const reproduction = s.stepErrors.map(...).join("\n\n")] *)
Definition reproduction (stringify : Step -> string) (s : Summary.t)
  : string :=
  join (nl ++ nl)%string
       (imap (reproductionItem stringify) (Summary.stepErrors s)).

(** [reproduction || "No step errors ..."] *)
Definition reproductionOrNote (stringify : Step -> string) (s : Summary.t)
  : string :=
  if String.eqb (reproduction stringify s) ""
  then "No step errors — see HTTP/console errors below."
  else reproduction stringify s.

(** [list?.length ? list.map(item).join("\n") : "(none)"], the shape of
    the four signal blocks. *)
Definition block {A} (item : A -> string) (signals : list A) : string :=
  match signals with
  | [] => "(none)"
  | _ => join nl (map item signals)
  end.

Definition consoleBlock (s : Summary.t) : string :=
  block (fun c => ("- " ++ ConsoleError.text c)%string)
        (Summary.consoleErrors s).

Definition pageBlock (s : Summary.t) : string :=
  block (fun p => ("- " ++ p)%string) (Summary.pageErrors s).

Definition httpBlock (s : Summary.t) : string :=
  block (fun h => ("- " ++ of_Z (HttpError.status h) ++ " "
                     ++ HttpError.statusText h ++ " — "
                     ++ HttpError.url h)%string)
        (Summary.httpErrors s).

Definition reqFailBlock (s : Summary.t) : string :=
  block (fun r => ("- " ++ RequestFailure.method r ++ " "
                     ++ RequestFailure.url r ++ " — "
                     ++ RequestFailure.failure r)%string)
        (Summary.requestFailures s).

(** [function buildBuilderPrompt(s)] *)
Definition buildBuilderPrompt (stringify : Step -> string) (s : Summary.t)
  : string :=
  String.concat ""
    [ "# Builder Agent — Fix the failing user flow";
      nl;
      nl;
      "## Context";
      nl;
      "- App base URL: ";
      Summary.baseUrl s;
      nl;
      "- Function under test (human name): ";
      Summary.testName s;
      nl;
      "- When: ";
      Summary.timestamp s;
      nl;
      "- Overall result: ";
      (if Summary.success s then "PASS" else "FAIL");
      nl;
      nl;
      "## Reproduction Steps & Failures";
      nl;
      reproductionOrNote stringify s;
      nl;
      nl;
      "## Runtime Signals";
      nl;
      "**Page errors**";
      nl;
      pageBlock s;
      nl;
      nl;
      "**Console errors**";
      nl;
      consoleBlock s;
      nl;
      nl;
      "**HTTP 4xx/5xx responses**";
      nl;
      httpBlock s;
      nl;
      nl;
      "**Network request failures**";
      nl;
      reqFailBlock s;
      nl;
      nl;
      "## Likely Causes — Heuristics";
      nl;
      "- Selector timeouts often mean the element never rendered, was hidden behind a condition, or the selector is wrong.";
      nl;
      "- 401/403: missing auth, invalid token, or CORS.";
      nl;
      "- 404: route mismatch or asset not built.";
      nl;
      "- 500: backend error — check server logs for stack traces.";
      nl;
      "- Console TypeError/ReferenceError: check component/module imports and client/server boundaries.";
      nl;
      nl;
      "## What to Do Next";
      nl;
      "1. Reproduce the failure locally by following the steps.";
      nl;
      "2. Inspect the failing component(s) and related route/API.";
      nl;
      "3. Add or fix tests to cover this flow.";
      nl;
      "4. Return a patch diff (or file edits) to resolve errors.";
      nl;
      nl;
      "## Deliverables";
      nl;
      "- Clear explanation of root cause";
      nl;
      "- Code changes to fix";
      nl;
      "- Updated test (if applicable)";
      nl;
      "- Any migration or config updates";
      nl ].

(** The number of line breaks of a text. *)
Fixpoint lineBreaks (s : string) : nat :=
  match s with
  | EmptyString => 0
  | String c rest =>
      (if Ascii.eqb c (ascii_of_nat 10) then 1 else 0) + lineBreaks rest
  end.

End Report.

(* ===================================================================== *)
(** ** The test builder (WebTestBuilderUI.tsx): editing the steps *)
(* ===================================================================== *)

Module Builder.

(** [s.replace(/c/g, by)] for a single character [c] *)
Fixpoint replaceChar (c : ascii) (by_ : string) (s : string) : string :=
  match s with
  | EmptyString => EmptyString
  | String d rest =>
      if Ascii.eqb d c then (by_ ++ replaceChar c by_ rest)%string
      else String d (replaceChar c by_ rest)
  end.

Definition backslash : ascii := ascii_of_nat 92.
Definition quote : ascii := ascii_of_nat 34.

(** [function cssEscape(s)]: every backslash doubled, then every double
    quote preceded by a backslash. *)
Definition cssEscape (s : string) : string :=
  replaceChar quote (String backslash (String quote EmptyString))
    (replaceChar backslash (String backslash (String backslash EmptyString))
       s).

(** What the two replacements write for one character of the text. *)
Definition escapedChar (c : ascii) : string :=
  if Ascii.eqb c backslash
  then String backslash (String backslash EmptyString)
  else if Ascii.eqb c quote
       then String backslash (String quote EmptyString)
       else String c EmptyString.

(** What the bookmarklet posts as [payload]: a click, the value typed into
    a field, a key, the end of the recording; the last case stands for
    any other [kind]. *)
Inductive Payload :=
| clicked (selector : string)
| typed (selector text : string)
| keyed (key : string)
| stopped
| unknown (kind : string).

(** [ev.data] of a window message. *)
Record Message := message {
  type : string;
  sessionId : string;
  payload : Payload
}.

(** [steps[steps.length - 1] = step], on a non-empty array. *)
Definition setLast (step : Step) (steps : list Step) : list Step :=
  <[List.length steps - 1 := step]> steps.

(** The steps after a recorder payload: the body of the updater that
    [onMsg] passes to [setTest].  The object of the last step is shared
    with the previous state, which the updater does not read again. *)
Definition recordedSteps (payload : Payload) (steps : list Step)
  : list Step :=
  match payload with
  | clicked selector => steps ++ [ClickStep selector]
  | typed selector text =>
      match last steps with
      | Some (TypeStep selector' _ pressEnter) =>
          if String.eqb selector' selector
          then setLast (TypeStep selector' text pressEnter) steps
          else steps ++ [TypeStep selector text None]
      | _ => steps ++ [TypeStep selector text None]
      end
  | keyed key =>
      if String.eqb key "Enter"
      then match last steps with
           | Some (TypeStep selector text _) =>
               setLast (TypeStep selector text (Some true)) steps
           | _ => steps
           end
      else steps
  | stopped | unknown _ => steps
  end.

Definition withSteps (t : TestDef.t) (steps : list Step) : TestDef.t :=
  TestDef.mk (TestDef.name t) (TestDef.description t) (TestDef.baseUrl t)
             steps (TestDef.tolerate t).

(** [function onMsg(ev)], as the test it leaves: messages without data, of
    another type or of another session are dropped. *)
Definition onMsg (session : string) (d : option Message) (prev : TestDef.t)
  : TestDef.t :=
  match d with
  | None => prev
  | Some d =>
      if negb (String.eqb (type d) "wt-recorder")
         || negb (String.eqb (sessionId d) session)
      then prev
      else withSteps prev (recordedSteps (payload d) (TestDef.steps prev))
  end.

(** [function addStep(s)] *)
Definition addStep (s : Step) (t : TestDef.t) : TestDef.t :=
  withSteps t (TestDef.steps t ++ [s]).

(** [steps.filter((_, idx) => idx !== i)] *)
Fixpoint filterOutIndex {A} (i idx : nat) (steps : list A) : list A :=
  match steps with
  | [] => []
  | x :: rest =>
      if negb (idx =? i)%nat then x :: filterOutIndex i (S idx) rest
      else filterOutIndex i (S idx) rest
  end.

(** [function removeStep(i)] *)
Definition removeStep (i : nat) (t : TestDef.t) : TestDef.t :=
  withSteps t (filterOutIndex i 0 (TestDef.steps t)).

(** The direction of a move: [-1] or [1]. *)
Inductive Dir := up | down.

Definition offset (dir : Dir) : Z :=
  match dir with
  | up => (-1)%Z
  | down => 1%Z
  end.

(** [[steps[i], steps[j]] = [steps[j], steps[i]]], for two positions that
    hold a step.  The buttons pass the position of a displayed step; at
    another [i] the source would store [undefined], which a list of steps
    cannot hold, and the list is left as it is. *)
Definition swap (i j : nat) (steps : list Step) : list Step :=
  match steps !! i, steps !! j with
  | Some x, Some y => <[j := x]> (<[i := y]> steps)
  | _, _ => steps
  end.

(** [function moveStep(i, dir)] *)
Definition moveStep (i : nat) (dir : Dir) (t : TestDef.t) : TestDef.t :=
  let j := (Z.of_nat i + offset dir)%Z in
  if (j <? 0)%Z || (j >=? Z.of_nat (List.length (TestDef.steps t)))%Z
  then t
  else withSteps t (swap i (Z.to_nat j) (TestDef.steps t)).

End Builder.

(* ===================================================================== *)
(** ** A scripted browser, engine and host, to run concrete tests *)
(* ===================================================================== *)

Module Scripted.

(** A page that follows a script: the selectors that never show up, whether
    screenshots can be taken, and what a navigation emits. *)
Record Page := script {
  missing : list string;
  camera : bool;
  onGoto : list Event
}.

Definition timeout (selector : string) : JsError :=
  Error ("Timeout 30000ms exceeded waiting for " ++ selector)%string.

Definition selectorCall (selector : string) (p : Page) : Reply Page unit :=
  if existsb (String.eqb selector) (missing p)
  then reply p [] (Throw (timeout selector))
  else reply p [] (Ok tt).

#[local] Instance playwright : Playwright Page := {
  page_goto := fun _ p => reply p (onGoto p) (Ok tt);
  page_click := selectorCall;
  page_fill := fun selector _ => selectorCall selector;
  page_type := fun selector _ => selectorCall selector;
  keyboard_press := fun _ p => reply p [] (Ok tt);
  page_waitForSelector := fun selector _ _ => selectorCall selector;
  page_textContent := fun selector p =>
    if existsb (String.eqb selector) (missing p)
    then reply p [] (Ok None)
    else reply p [] (Ok (Some selector));
  page_waitForTimeout := fun _ p => reply p [] (Ok tt);
  page_screenshot := fun path p =>
    if camera p then reply p [] (Ok tt)
    else reply p [] (Throw (Error "Target page has been closed"))
}.

(** The characters with a meaning in a pattern. *)
Definition syntaxChars : string := "\^$.|?*+()[]{}/".

Fixpoint plain (p : string) : bool :=
  match p with
  | EmptyString => true
  | String c rest =>
      negb (includes syntaxChars (String c EmptyString)) && plain rest
  end.

(** The engine on the patterns made of ordinary characters only, where
    [new RegExp(p, "i")] searches [p] regardless of case; it refuses every
    other pattern, the malformed ones among them. *)
#[local] Instance literalEngine : RegExpEngine := {
  RegExp := string;
  RegExp_new := fun p =>
    if plain p then Ok (toLowerCase p)
    else Throw (Error ("Invalid regular expression: /" ++ p ++ "/")%string);
  RegExp_test := fun re text => includes (toLowerCase text) re
}.

(** A host where every call succeeds: the test file holds [test] and the
    browser opens the page [p]. *)
Definition host (test : TestDef.t) (p : Page) : Host Page := {|
  URL_resolve := fun path base => Ok (base ++ path)%string;
  path_join := fun a b => (a ++ "/" ++ b)%string;
  loadTest := fun _ => Ok test;
  toISOString := fun _ => "2024-05-01T10:20:30.456Z";
  ensureDir := fun _ => Ok tt;
  launch := fun _ _ => Ok p;
  browser_close := fun _ => Ok tt;
  writeFile := fun _ _ => Ok tt;
  JSON_stringify := fun _ => "{}";
  buildBuilderPrompt := fun _ => "# Builder Agent";
  buildTLDR := fun s => ("Test: " ++ Summary.testName s)%string
|}.

Definition argv : Argv.t :=
  Argv.mk "tests/flow.yml" None "reports" true 0%Z false false false false.

Definition base : string := "http://localhost:3000".

Definition outDir : string := "reports/login-flow".

(** Five steps, the third of which (0-based index 2) waits for an element
    that never shows up. *)
Definition loginSteps : list Step :=
  [ NavigateStep None (Some "/login");
    ClickStep "#email";
    ClickStep "#missing";
    FillStep "#password" "secret";
    ScreenshotStep (Some "After Submit") ].

Definition loginTest : TestDef.t :=
  TestDef.mk "Login flow" None (Some base) loginSteps None.

(** A test with a screenshot step, and the same test without it. *)
Definition shotTest : TestDef.t :=
  TestDef.mk "Shot" None (Some base)
    [ClickStep "#open"; ScreenshotStep None] None.

Definition plainTest : TestDef.t :=
  TestDef.mk "Shot" None (Some base) [ClickStep "#open"] None.

(** ["#missing"] never shows up; screenshots work on the first page and
    fail on the second. *)
Definition sighted : Page := script ["#missing"] true [].
Definition blind : Page := script ["#missing"] false [].

Definition unauthorized : HttpError.t :=
  HttpError.mk "http://localhost:3000/api/login" 401%Z "Unauthorized".

Definition bracketOnly : Tolerate.t :=
  Tolerate.mk None None None None None (Some ["["]) None.

Definition allow401 : Tolerate.t :=
  Tolerate.mk None None None None (Some [401%Z]) None None.

Definition bracketed : HttpError.t :=
  HttpError.mk "http://localhost:3000/items[1]" 404%Z "Not Found".

(** The URLs that mention the login, whatever the case. *)
Definition loginUrlAllowed : Tolerate.t :=
  Tolerate.mk None None None None None (Some ["LOGIN"]) None.

Definition pagesTolerated : Tolerate.t :=
  Tolerate.mk None None (Some true) None None None None.

End Scripted.

(* ===================================================================== *)
(** ** runner.ts *)
(* ===================================================================== *)

Section Runner.

Context {Page : Type} {PW : Playwright Page} {RE : RegExpEngine}
        {HOST : Host Page}.

(** The mutable state of one run: the page and the five arrays that the
    listeners and [doStep] push to. *)
Record World := world {
  page : Page;
  consoleErrors : list ConsoleError.t;
  pageErrors : list string;
  requestFailures : list RequestFailure.t;
  httpErrors : list HttpError.t;
  stepErrors : list StepError.t
}.

(** The state after [newPage]: all five arrays empty. *)
Definition fresh (p : Page) : World := world p [] [] [] [] [].

Definition set_page (p : Page) (w : World) : World :=
  world p (consoleErrors w) (pageErrors w) (requestFailures w)
        (httpErrors w) (stepErrors w).

Definition push_stepError (e : StepError.t) (w : World) : World :=
  world (page w) (consoleErrors w) (pageErrors w) (requestFailures w)
        (httpErrors w) (stepErrors w ++ [e]).

(** The four [page.on] listeners. *)
Definition listen (w : World) (ev : Event) : World :=
  match ev with
  | console type text location =>
      if String.eqb type "error"
      then world (page w)
                 (consoleErrors w ++ [ConsoleError.mk type text location])
                 (pageErrors w) (requestFailures w) (httpErrors w)
                 (stepErrors w)
      else w
  | pageerror err =>
      world (page w) (consoleErrors w) (pageErrors w ++ [err])
            (requestFailures w) (httpErrors w) (stepErrors w)
  | requestfailed url method errorText =>
      world (page w) (consoleErrors w) (pageErrors w)
            (requestFailures w ++
               [RequestFailure.mk url method (nullish errorText "unknown")])
            (httpErrors w) (stepErrors w)
  | response url status statusText =>
      if (status >=? 400)%Z
      then world (page w) (consoleErrors w) (pageErrors w)
                 (requestFailures w)
                 (httpErrors w ++ [HttpError.mk url status statusText])
                 (stepErrors w)
      else w
  end.

(** An async computation of the run: it changes the world and settles. *)
Definition M (A : Type) : Type := World -> World * Exc A.

Definition ret {A} (a : A) : M A := fun w => (w, Ok a).

Definition throw {A} (e : JsError) : M A := fun w => (w, Throw e).

Definition bindM {A B} (m : M A) (k : A -> M B) : M B :=
  fun w =>
    match m w with
    | (w', Ok a) => k a w'
    | (w', Throw e) => (w', Throw e)
    end.

(** [try { body } catch (err) { handler err }] *)
Definition tryM {A} (body : M A) (handler : JsError -> M A) : M A :=
  fun w =>
    match body w with
    | (w', Ok a) => (w', Ok a)
    | (w', Throw e) => handler e w'
    end.

(** [await page.f(...)]: the call runs on the page, the listeners receive
    what was emitted meanwhile, and the call's settlement is the result. *)
Definition call {A} (f : Page -> Reply Page A) : M A :=
  fun w =>
    let r := f (page w) in
    (fold_left listen (emitted r) (set_page (after r) w), settled r).

Notation "'await*' x ':=' m 'in' k" := (bindM m (fun x => k))
  (at level 10, x name, m at level 100, k at level 200).
Notation "'await' m 'in' k" := (bindM m (fun _ => k))
  (at level 10, m at level 100, k at level 200).

(** [function absUrl(p)] *)
Definition absUrl (baseUrl : string) (p : option string) : string :=
  match p with
  | None | Some EmptyString => baseUrl
  | Some p =>
      match URL_resolve p baseUrl with
      | Ok u => u
      | Throw _ => p
      end
  end.

(** The file of a [screenshot] step: the constants [name] and [p] of its
    [case]. *)
Definition screenshotFile (outDir : string) (i : nat) (name : option string)
  : string :=
  let name :=
    if falsy_string name
    then (Js.of_nat i ++ "-screenshot")%string
    else (Js.of_nat i ++ "-" ++ slugify (nullish name ""))%string in
  path_join outDir (name ++ ".png")%string.

(** The [switch (step.action)] inside the [try] of [doStep]. *)
Definition action (baseUrl outDir : string) (i : nat) (step : Step)
  : M unit :=
  match step with
  | NavigateStep url path =>
      let target := nullish url (absUrl baseUrl path) in
      if String.eqb target ""
      then throw (Error "navigate requires url or path")
      else call (page_goto target)
  | ClickStep selector =>
      call (page_click selector)
  | TypeStep selector text pressEnter =>
      await call (page_fill selector "") in
      await call (page_type selector text) in
      if truthy pressEnter then call (keyboard_press "Enter") else ret tt
  | FillStep selector text =>
      call (page_fill selector text)
  | WaitForSelectorStep selector state timeoutMs =>
      call (page_waitForSelector selector (nullish state visible)
              (nullish timeoutMs 10000%Z))
  | ExpectVisibleStep selector timeoutMs =>
      call (page_waitForSelector selector visible
              (nullish timeoutMs 10000%Z))
  | ExpectTextStep selector text timeoutMs =>
      await call (page_waitForSelector selector visible
                    (nullish timeoutMs 10000%Z)) in
      await* content := call (page_textContent selector) in
      if falsy_string content || negb (includes (nullish content "") text)
      then throw (Error ("Expected text " ++ dquote ++ text ++ dquote
                           ++ " in " ++ selector ++ ", got: "
                           ++ nullish content "<empty>")%string)
      else ret tt
  | WaitMsStep ms =>
      call (page_waitForTimeout ms)
  | ScreenshotStep name =>
      call (page_screenshot (screenshotFile outDir i name))
  end.

(** The path of the screenshot taken when step [i] fails. *)
Definition shot (outDir : string) (i : nat) : string :=
  path_join outDir ("error-step-" ++ Js.of_nat i ++ ".png")%string.

(** [try { await page.screenshot({ path: shot, fullPage: true }); }
     catch {}] *)
Definition failureShot (outDir : string) (i : nat) : M unit :=
  tryM (call (page_screenshot (shot outDir i))) (fun _ => ret tt).

(** [stepErrors.push(e)] *)
Definition push (e : StepError.t) : M unit :=
  fun w => (push_stepError e w, Ok tt).

(** [async function doStep(i, step)]; [String(err?.message ?? err)] is the
    message of the caught [Error]. *)
Definition doStep (baseUrl outDir : string) (i : nat) (step : Step)
  : M unit :=
  tryM (action baseUrl outDir i step)
       (fun err =>
          let shot := shot outDir i in
          await failureShot outDir i in
          push (StepError.mk i step (Js.message err) (Some shot))).

(** [for (let i = 0; i < test.steps.length; i++)
       await doStep(i + 1, test.steps[i]);]
    with [i] the loop counter and [steps] the steps from [i] on. *)
Fixpoint forSteps (baseUrl outDir : string) (i : nat) (steps : list Step)
  : M unit :=
  match steps with
  | [] => ret tt
  | step :: rest =>
      await doStep baseUrl outDir (i + 1) step in
      forSteps baseUrl outDir (S i) rest
  end.

(* --------------------------------------------------------------------- *)
(** *** Tolerance filters and verdict *)

(** The callback of [patterns.some]: the entry as a case-insensitive
    regular expression, and as a literal substring when it does not
    compile. *)
Definition matchesPattern (text p : string) : Exc bool :=
  tryE (let* re := RegExp_new p in Ok (RegExp_test re text))%exc
       (fun _ => Ok (includes text p)).

(** [function matchesAnyPattern(text, patterns)] *)
Definition matchesAnyPattern (text : string) (patterns : option (list string))
  : Exc bool :=
  match patterns with
  | None | Some [] => Ok false
  | Some patterns => Array_some (matchesPattern text) patterns
  end.

(** [Array.isArray(tolerate.httpStatusAllowlist) &&
     tolerate.httpStatusAllowlist.includes(h.status)] *)
Definition allowByStatus (tolerate : Tolerate.t) (h : HttpError.t) : bool :=
  match Tolerate.httpStatusAllowlist tolerate with
  | Some allow => existsb (Z.eqb (HttpError.status h)) allow
  | None => false
  end.

(** [const filteredHttpErrors = httpErrors.filter(...)] *)
Definition filteredHttpErrors (tolerate : Tolerate.t)
  (httpErrors : list HttpError.t) : Exc (list HttpError.t) :=
  Array_filter
    (fun h =>
       let allowByStatus := allowByStatus tolerate h in
       let* allowByUrl :=
         matchesAnyPattern (HttpError.url h)
           (Tolerate.httpUrlAllowlist tolerate) in
       Ok (negb (allowByStatus || allowByUrl)))%exc
    httpErrors.

(** [const filteredConsoleErrors = consoleErrors.filter(...)] *)
Definition filteredConsoleErrors (tolerate : Tolerate.t)
  (consoleErrors : list ConsoleError.t) : Exc (list ConsoleError.t) :=
  Array_filter
    (fun c =>
       let* m :=
         matchesAnyPattern (ConsoleError.text c)
           (Tolerate.consolePatternAllowlist tolerate) in
       Ok (negb m))%exc
    consoleErrors.

(** [const filteredPageErrors = pageErrors.slice()] *)
Definition filteredPageErrors (pageErrors : list string) : list string :=
  pageErrors.

(** [const filteredRequestFailures = requestFailures.slice()] *)
Definition filteredRequestFailures (requestFailures : list RequestFailure.t)
  : list RequestFailure.t :=
  requestFailures.

(** [flag || toggle || filtered.length === 0], the shape of the four
    [...Ok] constants; [flag] is a boolean, [toggle] a boolean or
    [undefined], so the value is a boolean. *)
Definition categoryOk {A} (flag : bool) (toggle : option bool)
  (filtered : list A) : bool :=
  flag || truthy toggle || (List.length filtered =? 0)%nat.

Definition pageOk (argv : Argv.t) (tolerate : Tolerate.t)
  (filteredPageErrors : list string) : bool :=
  categoryOk (Argv.ignorePageErrors argv) (Tolerate.pageErrors tolerate)
             filteredPageErrors.

Definition consoleOk (argv : Argv.t) (tolerate : Tolerate.t)
  (filteredConsoleErrors : list ConsoleError.t) : bool :=
  categoryOk (Argv.ignoreConsoleErrors argv)
             (Tolerate.consoleErrors tolerate) filteredConsoleErrors.

Definition httpOk (argv : Argv.t) (tolerate : Tolerate.t)
  (filteredHttpErrors : list HttpError.t) : bool :=
  categoryOk (Argv.ignoreHttpErrors argv) (Tolerate.httpErrors tolerate)
             filteredHttpErrors.

Definition reqOk (argv : Argv.t) (tolerate : Tolerate.t)
  (filteredRequestFailures : list RequestFailure.t) : bool :=
  categoryOk (Argv.ignoreRequestFailures argv)
             (Tolerate.requestFailures tolerate) filteredRequestFailures.

(** [const success = stepErrors.length === 0 && pageOk && consoleOk
                     && httpOk && reqOk] *)
Definition success (stepErrors : list StepError.t)
  (pageOk consoleOk httpOk reqOk : bool) : bool :=
  (List.length stepErrors =? 0)%nat && pageOk && consoleOk && httpOk && reqOk.

(** The four signal arrays, raw or effective. *)
Record Signals := signals {
  s_consoleErrors : list ConsoleError.t;
  s_pageErrors : list string;
  s_requestFailures : list RequestFailure.t;
  s_httpErrors : list HttpError.t
}.

(** The four effective arrays. *)
Definition filterSignals (tolerate : Tolerate.t) (s : Signals) : Exc Signals :=
  (let* http := filteredHttpErrors tolerate (s_httpErrors s) in
   let* cons := filteredConsoleErrors tolerate (s_consoleErrors s) in
   Ok (signals cons (filteredPageErrors (s_pageErrors s))
               (filteredRequestFailures (s_requestFailures s)) http))%exc.

(** The verdict computed from the effective arrays (lines 173 to 179). *)
Definition verdictOf (argv : Argv.t) (tolerate : Tolerate.t)
  (stepErrors : list StepError.t) (eff : Signals) : bool :=
  success stepErrors
          (pageOk argv tolerate (s_pageErrors eff))
          (consoleOk argv tolerate (s_consoleErrors eff))
          (httpOk argv tolerate (s_httpErrors eff))
          (reqOk argv tolerate (s_requestFailures eff)).

(** Lines 162 to 199 of [run]: the filters, the category flags, the verdict
    and the [summary] object. *)
Definition summarize (argv : Argv.t) (test : TestDef.t) (baseUrl : string)
  (timestamp : string) (tolerate : Tolerate.t)
  (stepErrors : list StepError.t) (raw : Signals) : Exc Summary.t :=
  (let* eff := filterSignals tolerate raw in
   let success := verdictOf argv tolerate stepErrors eff in
   Ok (Summary.mk (TestDef.name test) (TestDef.description test) baseUrl
         timestamp success
         (Counts.mk (List.length stepErrors)
            (List.length (s_pageErrors eff))
            (List.length (s_consoleErrors eff))
            (List.length (s_httpErrors eff))
            (List.length (s_requestFailures eff)))
         stepErrors (s_pageErrors eff) (s_consoleErrors eff)
         (s_httpErrors eff) (s_requestFailures eff)))%exc.

(* --------------------------------------------------------------------- *)
(** *** The run and the exit status of the process *)

(** The four signal arrays of a world. *)
Definition signalsOf (w : World) : Signals :=
  signals (consoleErrors w) (pageErrors w) (requestFailures w) (httpErrors w).

(** [async function run()].  It returns the [summary] object it has
    written, so that statements can speak about it. *)
Definition run (argv : Argv.t) : Exc Summary.t :=
  (let* test := loadTest (Argv.test argv) in
   let baseUrl := nullish_opt (Argv.baseUrl argv) (TestDef.baseUrl test) in
   let tolerate := nullish (TestDef.tolerate test) Tolerate.empty in
   match baseUrl with
   | None | Some EmptyString =>
       Throw (Error "No baseUrl provided. Pass --baseUrl or set baseUrl in the YAML test.")
   | Some baseUrl =>
       let stamp := dash_colons_dots (toISOString 0) in
       let testSlug := slugify (TestDef.name test) in
       let outDir :=
         path_join (Argv.outDir argv) (testSlug ++ "-" ++ stamp)%string in
       run* ensureDir outDir in
       let* newPage := launch (Argv.headless argv) (Argv.slowMo argv) in
       let (w, steps_done) :=
         forSteps baseUrl outDir 0 (TestDef.steps test) (fresh newPage) in
       run* steps_done in
       run* browser_close (page w) in
       let* summary :=
         summarize argv test baseUrl (toISOString 1) tolerate
                   (stepErrors w) (signalsOf w) in
       run* writeFile (path_join outDir "result.json")
                      (JSON_stringify summary) in
       run* writeFile (path_join outDir "builder-prompt.md")
                      (buildBuilderPrompt summary) in
       run* writeFile (path_join outDir "tldr.txt") (buildTLDR summary) in
       Ok summary
   end)%exc.

(** The exit status of the process:
    [run().catch((e) => { console.error(e); process.exit(1); })], and the
    status 0 with which Node ends once [run] has resolved. *)
Definition exitStatus (argv : Argv.t) : Z :=
  match run argv with
  | Ok _ => 0%Z
  | Throw _ => 1%Z
  end.

(* --------------------------------------------------------------------- *)
(** *** Notions used to state the properties *)

(** What [matchesPattern] returns. *)
Definition patternHolds (text p : string) : bool :=
  match RegExp_new p with
  | Ok re => RegExp_test re text
  | Throw _ => includes text p
  end.

(** The filter predicates of the two filtered categories. *)
Definition keepsHttp (tolerate : Tolerate.t) (h : HttpError.t) : bool :=
  negb (allowByStatus tolerate h
        || existsb (patternHolds (HttpError.url h))
                   (nullish (Tolerate.httpUrlAllowlist tolerate) [])).

Definition keepsConsole (tolerate : Tolerate.t) (c : ConsoleError.t) : bool :=
  negb (existsb (patternHolds (ConsoleError.text c))
                (nullish (Tolerate.consolePatternAllowlist tolerate) [])).

(** [t'] tolerates at least what [t] tolerates: every toggle that is on
    stays on and every allowlist keeps its entries. *)
Definition toleratesMore (t t' : Tolerate.t) : Prop :=
  (truthy (Tolerate.httpErrors t) = true ->
   truthy (Tolerate.httpErrors t') = true)
  /\ (truthy (Tolerate.consoleErrors t) = true ->
      truthy (Tolerate.consoleErrors t') = true)
  /\ (truthy (Tolerate.pageErrors t) = true ->
      truthy (Tolerate.pageErrors t') = true)
  /\ (truthy (Tolerate.requestFailures t) = true ->
      truthy (Tolerate.requestFailures t') = true)
  /\ incl (nullish (Tolerate.httpStatusAllowlist t) [])
          (nullish (Tolerate.httpStatusAllowlist t') [])
  /\ incl (nullish (Tolerate.httpUrlAllowlist t) [])
          (nullish (Tolerate.httpUrlAllowlist t') [])
  /\ incl (nullish (Tolerate.consolePatternAllowlist t) [])
          (nullish (Tolerate.consolePatternAllowlist t') []).

(** One enlargement of a tolerance: a category toggle set to true, or an
    entry added (anywhere) to one of the three allowlists; an absent
    allowlist counts as the empty one. *)
Inductive Enlarged : Tolerate.t -> Tolerate.t -> Prop :=
| toggle_httpErrors h c p r s u k :
    Enlarged (Tolerate.mk h c p r s u k) (Tolerate.mk (Some true) c p r s u k)
| toggle_consoleErrors h c p r s u k :
    Enlarged (Tolerate.mk h c p r s u k) (Tolerate.mk h (Some true) p r s u k)
| toggle_pageErrors h c p r s u k :
    Enlarged (Tolerate.mk h c p r s u k) (Tolerate.mk h c (Some true) r s u k)
| toggle_requestFailures h c p r s u k :
    Enlarged (Tolerate.mk h c p r s u k) (Tolerate.mk h c p (Some true) s u k)
| add_httpStatus h c p r s u k before after x :
    nullish s [] = before ++ after ->
    Enlarged (Tolerate.mk h c p r s u k)
             (Tolerate.mk h c p r (Some (before ++ x :: after)) u k)
| add_httpUrl h c p r s u k before after x :
    nullish u [] = before ++ after ->
    Enlarged (Tolerate.mk h c p r s u k)
             (Tolerate.mk h c p r s (Some (before ++ x :: after)) k)
| add_consolePattern h c p r s u k before after x :
    nullish k [] = before ++ after ->
    Enlarged (Tolerate.mk h c p r s u k)
             (Tolerate.mk h c p r s u (Some (before ++ x :: after))).

(** A computation that leaves the recorded step errors alone. *)
Definition keepsStepErrors {A} (m : M A) : Prop :=
  forall w, stepErrors (fst (m w)) = stepErrors w.

(** What the loop attempts: for each step, its 1-based number, the step and
    how its action settled in the world left by the steps before it. *)
Fixpoint attempts (baseUrl outDir : string) (i : nat) (steps : list Step)
  (w : World) : list (nat * Step * Exc unit) :=
  match steps with
  | [] => []
  | step :: rest =>
      (i + 1, step, snd (action baseUrl outDir (i + 1) step w))
        :: attempts baseUrl outDir (S i) rest
             (fst (doStep baseUrl outDir (i + 1) step w))
  end.

(** The step error that an attempt leaves behind: none when the action
    settled normally, one when it threw. *)
Definition recorded (outDir : string) (a : nat * Step * Exc unit)
  : list StepError.t :=
  match a with
  | (i, step, Throw e) =>
      [StepError.mk i step (Js.message e) (Some (shot outDir i))]
  | (_, _, Ok _) => []
  end.

(** What each listener appends for one event. *)
Definition consoleOf (ev : Event) : list ConsoleError.t :=
  match ev with
  | console type text location =>
      if String.eqb type "error"
      then [ConsoleError.mk type text location] else []
  | _ => []
  end.

Definition pageErrorOf (ev : Event) : list string :=
  match ev with
  | pageerror err => [err]
  | _ => []
  end.

Definition requestFailureOf (ev : Event) : list RequestFailure.t :=
  match ev with
  | requestfailed url method errorText =>
      [RequestFailure.mk url method (nullish errorText "unknown")]
  | _ => []
  end.

Definition httpErrorOf (ev : Event) : list HttpError.t :=
  match ev with
  | response url status statusText =>
      if (status >=? 400)%Z then [HttpError.mk url status statusText] else []
  | _ => []
  end.

(** A property of the world that no listener, page change or
    [stepErrors.push] breaks. *)
Definition stable (P : World -> Prop) : Prop :=
  (forall w ev, P w -> P (listen w ev))
  /\ (forall w p, P w -> P (set_page p w))
  /\ (forall w e, P w -> P (push_stepError e w)).

(** A computation that keeps [P]. *)
Definition preserves {A} (P : World -> Prop) (m : M A) : Prop :=
  forall w, P w -> P (fst (m w)).

(** The four raw logs of [w0] are still the beginning of those of [w]. *)
Definition extends (w0 w : World) : Prop :=
  prefix (consoleErrors w0) (consoleErrors w)
  /\ prefix (pageErrors w0) (pageErrors w)
  /\ prefix (requestFailures w0) (requestFailures w)
  /\ prefix (httpErrors w0) (httpErrors w).

(** Every recorded console error is of type "error" and every recorded
    http error has a status of 400 or more. *)
Definition genuine (w : World) : Prop :=
  Forall (fun c => ConsoleError.type c = "error") (consoleErrors w)
  /\ Forall (fun h => (400 <= HttpError.status h)%Z) (httpErrors w).

(* ===================================================================== *)
(** ** Properties *)
(* ===================================================================== *)

(** *** Strings *)

Lemma prefix_app (p s : string) :
  String.prefix p s = true <-> exists r, s = (p ++ r)%string.
Proof.
  revert s; induction p as [|c p IH]; intros s.
  - split; [exists s; reflexivity | destruct s; reflexivity].
  - destruct s as [|d s]; simpl.
    + split; [discriminate | intros [r Hr]; discriminate].
    + destruct (Ascii.ascii_dec c d) as [Hcd|Hcd].
      * rewrite IH. split; intros [r Hr]; exists r.
        -- now rewrite Hr, Hcd.
        -- now inversion Hr.
      * split; [discriminate | intros [r Hr]; inversion Hr; congruence].
Qed.

Lemma includes_unfold (text p : string) :
  includes text p =
  if String.prefix p text then true
  else match text with
       | EmptyString => false
       | String _ rest => includes rest p
       end.
Proof. destruct text; reflexivity. Qed.

(** [includes text p] holds exactly when [p] occurs inside [text]. *)
Lemma includes_occurs (text p : string) :
  includes text p = true <-> exists a b, text = (a ++ p ++ b)%string.
Proof.
  induction text as [|c text IH]; rewrite includes_unfold.
  - destruct (String.prefix p "") eqn:E.
    + apply prefix_app in E as [r Hr]. split; [|reflexivity].
      intros _. exists "", r. exact Hr.
    + split; [discriminate|]. intros [a [b Hab]].
      destruct a; simpl in Hab; [|discriminate].
      assert (String.prefix p "" = true) by (apply prefix_app; eauto).
      congruence.
  - destruct (String.prefix p (String c text)) eqn:E.
    + apply prefix_app in E as [r Hr]. split; [|reflexivity].
      intros _. exists "", r. exact Hr.
    + rewrite IH. split.
      * intros [a [b Hab]]. exists (String c a), b. simpl. now rewrite Hab.
      * intros [a [b Hab]]. destruct a as [|d a]; simpl in Hab.
        -- assert (String.prefix p (String c text) = true)
             by (apply prefix_app; eauto).
           congruence.
        -- inversion Hab. eauto.
Qed.

(** *** Callbacks that never throw *)

Lemma Array_some_total {A} (cb : A -> Exc bool) (f : A -> bool) xs :
  (forall x, cb x = Ok (f x)) -> Array_some cb xs = Ok (existsb f xs).
Proof.
  intros Hcb. induction xs as [|x xs IH]; simpl; [reflexivity|].
  rewrite Hcb. simpl. destruct (f x); [reflexivity | exact IH].
Qed.

Lemma Array_filter_total {A} (cb : A -> Exc bool) (f : A -> bool) xs :
  (forall x, cb x = Ok (f x)) -> Array_filter cb xs = Ok (List.filter f xs).
Proof.
  intros Hcb. induction xs as [|x xs IH]; simpl; [reflexivity|].
  rewrite Hcb, IH. simpl. reflexivity.
Qed.

(** *** The pattern match as a boolean *)

Lemma matchesPattern_total text p :
  matchesPattern text p = Ok (patternHolds text p).
Proof.
  unfold matchesPattern, patternHolds.
  destruct (RegExp_new p); reflexivity.
Qed.

Lemma matchesAnyPattern_total text patterns :
  matchesAnyPattern text patterns
  = Ok (existsb (patternHolds text) (nullish patterns [])).
Proof.
  destruct patterns as [[|p ps]|]; try reflexivity.
  unfold matchesAnyPattern, nullish.
  apply Array_some_total, matchesPattern_total.
Qed.

Lemma filteredHttpErrors_total tolerate raw :
  filteredHttpErrors tolerate raw = Ok (List.filter (keepsHttp tolerate) raw).
Proof.
  apply Array_filter_total. intros h.
  rewrite matchesAnyPattern_total. reflexivity.
Qed.

Lemma filteredConsoleErrors_total tolerate raw :
  filteredConsoleErrors tolerate raw
  = Ok (List.filter (keepsConsole tolerate) raw).
Proof.
  apply Array_filter_total. intros c.
  rewrite matchesAnyPattern_total. reflexivity.
Qed.

Lemma filterSignals_total tolerate s :
  filterSignals tolerate s
  = Ok (signals (List.filter (keepsConsole tolerate) (s_consoleErrors s))
                (s_pageErrors s) (s_requestFailures s)
                (List.filter (keepsHttp tolerate) (s_httpErrors s))).
Proof.
  unfold filterSignals.
  rewrite filteredHttpErrors_total, filteredConsoleErrors_total.
  reflexivity.
Qed.

Lemma categoryOk_true {A} flag toggle (filtered : list A) :
  categoryOk flag toggle filtered = true
  <-> flag = true \/ toggle = Some true \/ List.length filtered = 0%nat.
Proof.
  unfold categoryOk, truthy.
  rewrite !orb_true_iff, Nat.eqb_eq.
  destruct toggle as [[|]|]; intuition congruence.
Qed.

(** *** Filtering with a boolean predicate *)

Lemma filter_sublist_of {A} (f : A -> bool) (l : list A) :
  sublist (List.filter f l) l.
Proof.
  induction l as [|x l IH]; simpl.
  - constructor.
  - destruct (f x); now constructor.
Qed.

Lemma filter_twice {A} (f : A -> bool) (l : list A) :
  List.filter f (List.filter f l) = List.filter f l.
Proof.
  induction l as [|x l IH]; simpl; [reflexivity|].
  destruct (f x) eqn:E; simpl; [rewrite E, IH|]; auto.
Qed.

Lemma filter_none_mono {A} (f g : A -> bool) (l : list A) :
  (forall x, g x = true -> f x = true) ->
  List.length (List.filter f l) = 0%nat ->
  List.length (List.filter g l) = 0%nat.
Proof.
  intros Hgf. induction l as [|x l IH]; simpl; [reflexivity|].
  destruct (g x) eqn:Eg.
  - rewrite (Hgf x Eg). discriminate.
  - destruct (f x); [discriminate | exact IH].
Qed.

Lemma existsb_incl {A} (f : A -> bool) (l l' : list A) :
  incl l l' -> existsb f l = true -> existsb f l' = true.
Proof.
  intros Hincl. rewrite !existsb_exists.
  intros [x [Hin Hx]]. exists x. split; [apply Hincl|]; assumption.
Qed.

Lemma keepsHttp_false tolerate h :
  keepsHttp tolerate h = false <->
  (exists allow, Tolerate.httpStatusAllowlist tolerate = Some allow
                 /\ In (HttpError.status h) allow)
  \/ (exists patterns p,
        Tolerate.httpUrlAllowlist tolerate = Some patterns
        /\ In p patterns /\ matchesPattern (HttpError.url h) p = Ok true).
Proof.
  unfold keepsHttp, allowByStatus.
  rewrite negb_false_iff, orb_true_iff. split.
  - intros [Hs|Hu].
    + left. destruct (Tolerate.httpStatusAllowlist tolerate) as [allow|];
        [|discriminate].
      exists allow. split; [reflexivity|].
      apply existsb_exists in Hs as [z [Hin Hz]].
      apply Z.eqb_eq in Hz. now rewrite Hz.
    + right. destruct (Tolerate.httpUrlAllowlist tolerate) as [patterns|];
        [|discriminate].
      apply existsb_exists in Hu as [p [Hin Hp]].
      exists patterns, p. rewrite matchesPattern_total, Hp. auto.
  - intros [[allow [Ha Hin]]|[patterns [p [Hp [Hin Hm]]]]].
    + left. rewrite Ha. apply existsb_exists.
      exists (HttpError.status h). split; [assumption | apply Z.eqb_refl].
    + right. rewrite Hp. apply existsb_exists. exists p. split; [assumption|].
      rewrite matchesPattern_total in Hm. now inversion Hm.
Qed.

(** The rule of one allowlist entry, on the engine itself: the entry
    compiles and its regular expression matches the text, or it does not
    compile and occurs in the text as a substring. *)
Lemma patternHolds_rule (text p : string) :
  patternHolds text p = true <->
  (exists re, RegExp_new p = Ok re /\ RegExp_test re text = true)
  \/ (exists e, RegExp_new p = Throw e
                /\ exists a b, text = (a ++ p ++ b)%string).
Proof.
  unfold patternHolds. destruct (RegExp_new p) as [re|e] eqn:E.
  - split.
    + intros H. left. exists re. auto.
    + intros [[re' [Hre Ht]]|[e [He _]]]; [|discriminate].
      inversion Hre. now subst.
  - rewrite includes_occurs. split.
    + intros H. right. exists e. auto.
    + intros [[re [Hre _]]|[e' [_ H]]]; [discriminate | exact H].
Qed.

Lemma keepsHttp_false_rule tolerate h :
  keepsHttp tolerate h = false <->
  (exists allow, Tolerate.httpStatusAllowlist tolerate = Some allow
                 /\ In (HttpError.status h) allow)
  \/ (exists patterns p,
        Tolerate.httpUrlAllowlist tolerate = Some patterns
        /\ In p patterns
        /\ ((exists re, RegExp_new p = Ok re
                        /\ RegExp_test re (HttpError.url h) = true)
            \/ (exists e, RegExp_new p = Throw e
                          /\ exists a b,
                               HttpError.url h = (a ++ p ++ b)%string))).
Proof.
  rewrite keepsHttp_false. split.
  - intros [Hs|(patterns & p & Hp & Hin & Hm)]; [left; exact Hs|].
    right. exists patterns, p. repeat split; try assumption.
    apply patternHolds_rule. rewrite matchesPattern_total in Hm.
    now inversion Hm.
  - intros [Hs|(patterns & p & Hp & Hin & Hrule)]; [left; exact Hs|].
    right. exists patterns, p. repeat split; try assumption.
    rewrite matchesPattern_total.
    now rewrite (proj2 (patternHolds_rule (HttpError.url h) p) Hrule).
Qed.

Lemma summarize_total argv test baseUrl timestamp tolerate stepErrors raw :
  exists eff,
    filterSignals tolerate raw = Ok eff
    /\ summarize argv test baseUrl timestamp tolerate stepErrors raw
       = Ok (Summary.mk (TestDef.name test) (TestDef.description test)
               baseUrl timestamp
               (verdictOf argv tolerate stepErrors eff)
               (Counts.mk (List.length stepErrors)
                  (List.length (s_pageErrors eff))
                  (List.length (s_consoleErrors eff))
                  (List.length (s_httpErrors eff))
                  (List.length (s_requestFailures eff)))
               stepErrors (s_pageErrors eff) (s_consoleErrors eff)
               (s_httpErrors eff) (s_requestFailures eff)).
Proof.
  unfold summarize. rewrite filterSignals_total.
  eexists; split; reflexivity.
Qed.

(** *** The tolerance evaluator *)

(** C2. The summary of every run reports success exactly when no step
    failed and each of the four categories (page errors, console errors,
    http errors, request failures) is ok; the categories are judged on the
    effective lists, which are the raw page errors and request failures
    and the filtered console and http errors, and these are the lists the
    summary carries. *)
Theorem verdict_is_strict_conjunction
  argv test baseUrl timestamp tolerate stepErrors raw :
  exists s eff,
    summarize argv test baseUrl timestamp tolerate stepErrors raw = Ok s
    /\ filterSignals tolerate raw = Ok eff
    /\ filteredHttpErrors tolerate (s_httpErrors raw) = Ok (s_httpErrors eff)
    /\ filteredConsoleErrors tolerate (s_consoleErrors raw)
       = Ok (s_consoleErrors eff)
    /\ s_pageErrors eff = s_pageErrors raw
    /\ s_requestFailures eff = s_requestFailures raw
    /\ Summary.stepErrors s = stepErrors
    /\ Summary.pageErrors s = s_pageErrors eff
    /\ Summary.consoleErrors s = s_consoleErrors eff
    /\ Summary.httpErrors s = s_httpErrors eff
    /\ Summary.requestFailures s = s_requestFailures eff
    /\ (Summary.success s = true <->
        List.length stepErrors = 0%nat
        /\ pageOk argv tolerate (s_pageErrors eff) = true
        /\ consoleOk argv tolerate (s_consoleErrors eff) = true
        /\ httpOk argv tolerate (s_httpErrors eff) = true
        /\ reqOk argv tolerate (s_requestFailures eff) = true)
    /\ (Summary.success s = false <->
        List.length stepErrors <> 0%nat
        \/ pageOk argv tolerate (s_pageErrors eff) = false
        \/ consoleOk argv tolerate (s_consoleErrors eff) = false
        \/ httpOk argv tolerate (s_httpErrors eff) = false
        \/ reqOk argv tolerate (s_requestFailures eff) = false).
Proof.
  destruct (summarize_total argv test baseUrl timestamp tolerate
              stepErrors raw) as [eff [Heff Hs]].
  exists (Summary.mk (TestDef.name test) (TestDef.description test) baseUrl
            timestamp (verdictOf argv tolerate stepErrors eff)
            (Counts.mk (List.length stepErrors)
               (List.length (s_pageErrors eff))
               (List.length (s_consoleErrors eff))
               (List.length (s_httpErrors eff))
               (List.length (s_requestFailures eff)))
            stepErrors (s_pageErrors eff) (s_consoleErrors eff)
            (s_httpErrors eff) (s_requestFailures eff)), eff.
  split; [exact Hs|]. split; [exact Heff|].
  pose proof Heff as Heff'. rewrite filterSignals_total in Heff'.
  inversion Heff' as [Heq]. clear Heff'.
  split; [apply filteredHttpErrors_total|].
  split; [apply filteredConsoleErrors_total|].
  do 7 (split; [reflexivity|]).
  cbn [Summary.success]. unfold verdictOf, success.
  split.
  - rewrite !andb_true_iff, Nat.eqb_eq. tauto.
  - rewrite !andb_false_iff, Nat.eqb_neq. tauto.
Qed.

(** C3. Each of the four categories is ok exactly when its global override
    flag is set, or its tolerance toggle is true, or its effective list is
    empty; with [tolerate.pageErrors] true and one raw page error the page
    category is ok whatever the allowlists are. *)
Theorem category_ok_iff argv tolerate raw :
  exists eff,
    filterSignals tolerate raw = Ok eff
    /\ (pageOk argv tolerate (s_pageErrors eff) = true <->
        Argv.ignorePageErrors argv = true
        \/ Tolerate.pageErrors tolerate = Some true
        \/ List.length (s_pageErrors eff) = 0%nat)
    /\ (consoleOk argv tolerate (s_consoleErrors eff) = true <->
        Argv.ignoreConsoleErrors argv = true
        \/ Tolerate.consoleErrors tolerate = Some true
        \/ List.length (s_consoleErrors eff) = 0%nat)
    /\ (httpOk argv tolerate (s_httpErrors eff) = true <->
        Argv.ignoreHttpErrors argv = true
        \/ Tolerate.httpErrors tolerate = Some true
        \/ List.length (s_httpErrors eff) = 0%nat)
    /\ (reqOk argv tolerate (s_requestFailures eff) = true <->
        Argv.ignoreRequestFailures argv = true
        \/ Tolerate.requestFailures tolerate = Some true
        \/ List.length (s_requestFailures eff) = 0%nat)
    /\ (forall err,
          Tolerate.pageErrors tolerate = Some true ->
          s_pageErrors raw = [err] ->
          s_pageErrors eff = [err]
          /\ pageOk argv tolerate (s_pageErrors eff) = true).
Proof.
  eexists. split; [apply filterSignals_total|]. simpl.
  unfold pageOk, consoleOk, httpOk, reqOk.
  repeat (split; [apply categoryOk_true|]).
  intros err Htoggle Hraw. split; [exact Hraw|].
  apply categoryOk_true. auto.
Qed.

(** C4. The allowlist match settles with a boolean for every text and every
    list of entries; an entry that compiles is tested as a (case-insensitive)
    regular expression, an entry that does not compile is searched as a
    literal substring; when ["["] does not compile, an http error is
    filtered out by the allowlist [["["]] exactly when its URL contains
    a ["["]. *)
Theorem allowlist_match_never_raises (text : string)
  (patterns : option (list string)) :
  (exists b, matchesAnyPattern text patterns = Ok b)
  /\ (forall p re,
        RegExp_new p = Ok re ->
        matchesPattern text p = Ok (RegExp_test re text))
  /\ (forall p e,
        RegExp_new p = Throw e ->
        matchesPattern text p = Ok (includes text p))
  /\ (forall e tolerate h,
        RegExp_new "[" = Throw e ->
        Tolerate.httpStatusAllowlist tolerate = None ->
        Tolerate.httpUrlAllowlist tolerate = Some ["["] ->
        HttpError.url h = text ->
        filteredHttpErrors tolerate [h]
        = Ok (if includes text "[" then [] else [h])
        /\ (includes text "[" = true <->
            exists a b, text = (a ++ "[" ++ b)%string)).
Proof.
  split; [|split; [|split]].
  - rewrite matchesAnyPattern_total. eauto.
  - intros p re Hre. unfold matchesPattern. now rewrite Hre.
  - intros p e He. unfold matchesPattern. now rewrite He.
  - intros e tolerate h He Hstatus Hurl Hh.
    split; [|apply includes_occurs].
    rewrite filteredHttpErrors_total. simpl.
    unfold keepsHttp, allowByStatus, patternHolds.
    rewrite Hstatus, Hurl, Hh. simpl. rewrite He.
    destruct (includes text "["); reflexivity.
Qed.

(** C5. A raw http error is left out of the effective list exactly when its
    status is in [httpStatusAllowlist], or some entry of [httpUrlAllowlist]
    matches its URL: the entry compiles and its case-insensitive regular
    expression matches the URL, or it does not compile and the URL contains
    it as a substring.  The effective list keeps the other errors in their
    order; with [httpStatusAllowlist = [401]] and one raw error of status
    401 the effective list is empty and [httpOk] is true. *)
Theorem http_error_suppressed_iff (tolerate : Tolerate.t)
  (raw : list HttpError.t) :
  exists eff,
    filteredHttpErrors tolerate raw = Ok eff
    /\ (forall h, In h eff -> In h raw)
    /\ sublist eff raw
    /\ (forall h,
          In h raw ->
          (~ In h eff <->
           (exists allow,
              Tolerate.httpStatusAllowlist tolerate = Some allow
              /\ In (HttpError.status h) allow)
           \/ (exists patterns p,
                 Tolerate.httpUrlAllowlist tolerate = Some patterns
                 /\ In p patterns
                 /\ ((exists re,
                        RegExp_new p = Ok re
                        /\ RegExp_test re (HttpError.url h) = true)
                     \/ (exists e,
                           RegExp_new p = Throw e
                           /\ exists a b,
                                HttpError.url h = (a ++ p ++ b)%string)))))
    /\ (forall h p,
          In h raw ->
          matchesPattern (HttpError.url h) p
          = Ok (match RegExp_new p with
                | Ok re => RegExp_test re (HttpError.url h)
                | Throw _ => includes (HttpError.url h) p
                end))
    /\ (forall h argv,
          raw = [h] ->
          Tolerate.httpStatusAllowlist tolerate = Some [401%Z] ->
          HttpError.status h = 401%Z ->
          eff = [] /\ httpOk argv tolerate eff = true).
Proof.
  exists (List.filter (keepsHttp tolerate) raw).
  split; [apply filteredHttpErrors_total|]. split; [|split; [|split; [|split]]].
  - intros h Hin. now apply filter_In in Hin.
  - apply filter_sublist_of.
  - intros h Hraw. rewrite <- keepsHttp_false_rule, filter_In. split.
    + intros Hnot. destruct (keepsHttp tolerate h); [tauto | reflexivity].
    + intros Hf [_ Ht]. congruence.
  - intros h p _. apply matchesPattern_total.
  - intros h argv -> Hallow Hstatus.
    assert (Hf : keepsHttp tolerate h = false).
    { apply keepsHttp_false. left. exists [401%Z].
      rewrite Hstatus. simpl. auto. }
    simpl. rewrite Hf. split; [reflexivity|].
    unfold httpOk. apply categoryOk_true. auto.
Qed.

(** *** Monotonicity *)

Lemma incl_insert {A} (l before after : list A) (x : A) :
  l = before ++ after -> incl l (before ++ x :: after).
Proof.
  intros -> y Hy. apply in_app_iff in Hy. apply in_app_iff.
  simpl. tauto.
Qed.

Lemma Enlarged_toleratesMore t t' : Enlarged t t' -> toleratesMore t t'.
Proof.
  destruct 1; unfold toleratesMore; simpl;
    repeat split; auto using incl_refl, incl_insert.
Qed.

Lemma keepsHttp_mono t t' h :
  toleratesMore t t' -> keepsHttp t' h = true -> keepsHttp t h = true.
Proof.
  intros (_ & _ & _ & _ & Hs & Hu & _).
  unfold keepsHttp, allowByStatus. rewrite !negb_true_iff, !orb_false_iff.
  intros [Hs' Hu']. split.
  - destruct (Tolerate.httpStatusAllowlist t) as [allow|]; [|reflexivity].
    destruct (existsb _ allow) eqn:E; [|reflexivity].
    apply (existsb_incl _ _ _ Hs) in E.
    simpl in E. destruct (Tolerate.httpStatusAllowlist t'); simpl in E;
      congruence.
  - destruct (existsb _ (nullish (Tolerate.httpUrlAllowlist t) [])) eqn:E;
      [|reflexivity].
    apply (existsb_incl _ _ _ Hu) in E. congruence.
Qed.

Lemma keepsConsole_mono t t' c :
  toleratesMore t t' -> keepsConsole t' c = true -> keepsConsole t c = true.
Proof.
  intros (_ & _ & _ & _ & _ & _ & Hk).
  unfold keepsConsole. rewrite !negb_true_iff. intros Hk'.
  destruct (existsb _ (nullish (Tolerate.consolePatternAllowlist t) []))
    eqn:E; [|reflexivity].
  apply (existsb_incl _ _ _ Hk) in E. congruence.
Qed.

Lemma categoryOk_mono {A} flag toggle toggle' (l l' : list A) :
  (truthy toggle = true -> truthy toggle' = true) ->
  (List.length l = 0%nat -> List.length l' = 0%nat) ->
  categoryOk flag toggle l = true -> categoryOk flag toggle' l' = true.
Proof.
  unfold categoryOk. rewrite !orb_true_iff, !Nat.eqb_eq. tauto.
Qed.

Lemma verdict_monotone argv t t' stepErrors raw eff eff' :
  toleratesMore t t' ->
  filterSignals t raw = Ok eff ->
  filterSignals t' raw = Ok eff' ->
  verdictOf argv t stepErrors eff = true ->
  verdictOf argv t' stepErrors eff' = true.
Proof.
  intros Hmore. rewrite !filterSignals_total.
  intros Heff Heff'. inversion Heff; inversion Heff'; subst; clear Heff Heff'.
  unfold verdictOf, success, pageOk, consoleOk, httpOk, reqOk. simpl.
  rewrite !andb_true_iff.
  pose proof Hmore as (Th & Tc & Tp & Tr & _).
  intros ((((Hsteps & Hp) & Hco) & Hht) & Hrq).
  repeat split; try assumption.
  - revert Hp. apply categoryOk_mono; auto.
  - revert Hco. apply categoryOk_mono; [assumption|].
    apply filter_none_mono. intros c. now apply keepsConsole_mono.
  - revert Hht. apply categoryOk_mono; [assumption|].
    apply filter_none_mono. intros h. now apply keepsHttp_mono.
  - revert Hrq. apply categoryOk_mono; auto.
Qed.

(** C6. With the raw signals and the step errors fixed, enlarging the
    tolerance (one more toggle set to true, or one more entry in
    [httpStatusAllowlist], [httpUrlAllowlist] or [consolePatternAllowlist])
    never turns a successful verdict into a failure. *)
Theorem verdict_monotone_in_tolerance
  argv test baseUrl timestamp (t t' : Tolerate.t) stepErrors raw :
  Enlarged t t' ->
  exists s s',
    summarize argv test baseUrl timestamp t stepErrors raw = Ok s
    /\ summarize argv test baseUrl timestamp t' stepErrors raw = Ok s'
    /\ (Summary.success s = true -> Summary.success s' = true).
Proof.
  intros Henl.
  destruct (summarize_total argv test baseUrl timestamp t stepErrors raw)
    as [eff [Heff Hs]].
  destruct (summarize_total argv test baseUrl timestamp t' stepErrors raw)
    as [eff' [Heff' Hs']].
  eexists. eexists. split; [exact Hs|]. split; [exact Hs'|]. simpl.
  apply (verdict_monotone argv t t' stepErrors raw eff eff');
    auto using Enlarged_toleratesMore.
Qed.

(** C7. Filtering the effective signals again changes nothing, and each
    effective list is its raw list with some elements removed, the others
    in their original order. *)
Theorem filter_idempotent_and_sublist (tolerate : Tolerate.t) (raw : Signals) :
  exists eff,
    filterSignals tolerate raw = Ok eff
    /\ filterSignals tolerate eff = Ok eff
    /\ sublist (s_consoleErrors eff) (s_consoleErrors raw)
    /\ sublist (s_pageErrors eff) (s_pageErrors raw)
    /\ sublist (s_requestFailures eff) (s_requestFailures raw)
    /\ sublist (s_httpErrors eff) (s_httpErrors raw).
Proof.
  eexists. split; [apply filterSignals_total|].
  rewrite filterSignals_total. simpl. rewrite !filter_twice.
  repeat split; auto using filter_sublist_of.
Qed.

(** *** The step executor *)

Lemma listen_stepErrors w ev : stepErrors (listen w ev) = stepErrors w.
Proof.
  destruct ev; simpl; try reflexivity.
  - destruct (String.eqb type "error"); reflexivity.
  - destruct (status >=? 400)%Z; reflexivity.
Qed.

Lemma listen_all_stepErrors evs w :
  stepErrors (fold_left listen evs w) = stepErrors w.
Proof.
  revert w. induction evs as [|ev evs IH]; intros w; simpl; [reflexivity|].
  rewrite IH. apply listen_stepErrors.
Qed.

Lemma keeps_call {A} (f : Page -> Reply Page A) : keepsStepErrors (call f).
Proof. intros w. unfold call. simpl. now rewrite listen_all_stepErrors. Qed.

Lemma keeps_ret {A} (a : A) : keepsStepErrors (ret a).
Proof. intros w. reflexivity. Qed.

Lemma keeps_throw {A} (e : JsError) : keepsStepErrors (@throw A e).
Proof. intros w. reflexivity. Qed.

Lemma keeps_bind {A B} (m : M A) (k : A -> M B) :
  keepsStepErrors m -> (forall a, keepsStepErrors (k a)) ->
  keepsStepErrors (bindM m k).
Proof.
  intros Hm Hk w. unfold bindM. specialize (Hm w).
  destruct (m w) as [w' [a|e]]; simpl in *; [|exact Hm].
  now rewrite Hk.
Qed.

Lemma keeps_try {A} (m : M A) (h : JsError -> M A) :
  keepsStepErrors m -> (forall e, keepsStepErrors (h e)) ->
  keepsStepErrors (tryM m h).
Proof.
  intros Hm Hh w. unfold tryM. specialize (Hm w).
  destruct (m w) as [w' [a|e]]; simpl in *; [exact Hm|].
  now rewrite Hh.
Qed.

Create HintDb keeps.
#[local] Hint Resolve keeps_call keeps_ret keeps_throw : keeps.

Lemma keeps_action baseUrl outDir i step :
  keepsStepErrors (action baseUrl outDir i step).
Proof.
  destruct step; simpl;
    repeat first
      [ apply keeps_bind; [|intros ?]
      | match goal with |- keepsStepErrors (if ?b then _ else _) =>
          destruct b end
      | solve [auto with keeps] ].
Qed.

Lemma failureShot_swallows outDir i w : snd (failureShot outDir i w) = Ok tt.
Proof.
  unfold failureShot, tryM.
  destruct (call (page_screenshot (shot outDir i)) w) as [w' [[]|e]];
    reflexivity.
Qed.

Lemma keeps_failureShot outDir i : keepsStepErrors (failureShot outDir i).
Proof. apply keeps_try; auto with keeps. Qed.

(** [doStep] when the action settles normally. *)
Lemma doStep_passed baseUrl outDir i step w w1 :
  action baseUrl outDir i step w = (w1, Ok tt) ->
  doStep baseUrl outDir i step w = (w1, Ok tt).
Proof. intros Ha. unfold doStep, tryM. now rewrite Ha. Qed.

(** [doStep] when the action throws. *)
Lemma doStep_failed baseUrl outDir i step w w1 e :
  action baseUrl outDir i step w = (w1, Throw e) ->
  doStep baseUrl outDir i step w
  = (push_stepError
       (StepError.mk i step (Js.message e) (Some (shot outDir i)))
       (fst (failureShot outDir i w1)),
     Ok tt).
Proof.
  intros Ha. unfold doStep, tryM at 1. rewrite Ha. unfold bindM, push.
  pose proof (failureShot_swallows outDir i w1) as Hs.
  destruct (failureShot outDir i w1) as [w2 r]. simpl in Hs. subst r.
  reflexivity.
Qed.

Lemma doStep_appends baseUrl outDir i step w :
  snd (doStep baseUrl outDir i step w) = Ok tt
  /\ stepErrors (fst (doStep baseUrl outDir i step w))
     = stepErrors w
       ++ recorded outDir (i, step, snd (action baseUrl outDir i step w)).
Proof.
  pose proof (keeps_action baseUrl outDir i step w) as Hk.
  destruct (action baseUrl outDir i step w) as [w1 [[]|e]] eqn:Ha;
    simpl in Hk |- *.
  - rewrite (doStep_passed _ _ _ _ _ _ Ha). simpl.
    now rewrite app_nil_r.
  - rewrite (doStep_failed _ _ _ _ _ _ _ Ha). simpl.
    now rewrite keeps_failureShot, Hk.
Qed.

Lemma forSteps_appends baseUrl outDir steps : forall i w,
  snd (forSteps baseUrl outDir i steps w) = Ok tt
  /\ stepErrors (fst (forSteps baseUrl outDir i steps w))
     = stepErrors w
       ++ flat_map (recorded outDir) (attempts baseUrl outDir i steps w).
Proof.
  induction steps as [|step rest IH]; intros i w; simpl.
  - now rewrite app_nil_r.
  - unfold bindM.
    destruct (doStep_appends baseUrl outDir (i + 1) step w) as [Hok Hrec].
    destruct (doStep baseUrl outDir (i + 1) step w) as [w1 r].
    simpl in Hok, Hrec. subst r.
    destruct (IH (S i) w1) as [Hok' Hrec'].
    split; [exact Hok'|]. rewrite Hrec', Hrec.
    now rewrite <- app_assoc.
Qed.

Lemma attempts_steps baseUrl outDir steps : forall i w,
  map fst (attempts baseUrl outDir i steps w)
  = combine (seq (i + 1) (List.length steps)) steps.
Proof.
  induction steps as [|step rest IH]; intros i w; simpl; [reflexivity|].
  f_equal. rewrite IH. now replace (S i + 1)%nat with (S (i + 1)) by lia.
Qed.

Lemma recorded_at_most_one outDir a :
  (List.length (recorded outDir a) <= 1)%nat.
Proof. destruct a as [[i step] [[]|e]]; simpl; lia. Qed.

Lemma recorded_count outDir tr :
  (List.length (flat_map (recorded outDir) tr) <= List.length tr)%nat.
Proof.
  induction tr as [|a tr IH]; simpl; [lia|].
  rewrite length_app. pose proof (recorded_at_most_one outDir a). lia.
Qed.

(** C1, as the runner has it.  The loop attempts every step in order and
    settles normally; [stepErrors] receives exactly one entry for each step
    whose action threw, in step order, with the 1-based number of the step,
    the step, the message and the failure screenshot path; a step whose
    action settled normally leaves no entry, so there are at most as many
    entries as steps. *)
Theorem step_errors_record_failed_steps
  (baseUrl outDir : string) (steps : list Step) (w : World) :
  let tr := attempts baseUrl outDir 0 steps w in
  let w' := fst (forSteps baseUrl outDir 0 steps w) in
  snd (forSteps baseUrl outDir 0 steps w) = Ok tt
  /\ map fst tr = combine (seq 1 (List.length steps)) steps
  /\ stepErrors w' = stepErrors w ++ flat_map (recorded outDir) tr
  /\ (List.length (flat_map (recorded outDir) tr) <= List.length steps)%nat
  /\ (forall i step e,
        In (i, step, Throw e) tr ->
        In (StepError.mk i step (Js.message e) (Some (shot outDir i)))
           (stepErrors w')).
Proof.
  intros tr w'. subst tr w'.
  destruct (forSteps_appends baseUrl outDir steps 0 w) as [Hok Hrec].
  pose proof (attempts_steps baseUrl outDir steps 0 w) as Hsteps.
  split; [exact Hok|]. split; [exact Hsteps|]. split; [exact Hrec|]. split.
  - etransitivity; [apply recorded_count|].
    rewrite <- (length_map fst), Hsteps, length_combine, length_seq. lia.
  - intros i step e Hin. rewrite Hrec. apply in_app_iff. right.
    apply in_flat_map. exists (i, step, Throw e). simpl. auto.
Qed.

(** C9, as the runner has it.  A screenshot step goes through the same
    [try] as every other action: when its capture settles normally it adds
    no step error, and when its capture throws it is recorded as a failed
    step, after which the verdict is a failure whatever the signals are. *)
Theorem screenshot_step_fails_only_with_its_capture
  (baseUrl outDir : string) (i : nat) (name : option string) (w : World) :
  let step := ScreenshotStep name in
  let capture := page_screenshot (screenshotFile outDir i name) (page w) in
  let w' := fst (doStep baseUrl outDir i step w) in
  snd (doStep baseUrl outDir i step w) = Ok tt
  /\ (settled capture = Ok tt -> stepErrors w' = stepErrors w)
  /\ (forall e,
        settled capture = Throw e ->
        stepErrors w'
        = stepErrors w
          ++ [StepError.mk i step (Js.message e) (Some (shot outDir i))]
        /\ forall argv tolerate eff,
             verdictOf argv tolerate (stepErrors w') eff = false).
Proof.
  intros step capture w'. subst step capture w'.
  destruct (doStep_appends baseUrl outDir i (ScreenshotStep name) w)
    as [Hok Hrec].
  split; [exact Hok|]. split.
  - intros Hcap. rewrite Hrec. simpl. unfold call. simpl. rewrite Hcap.
    apply app_nil_r.
  - intros e Hcap.
    assert (Hs : stepErrors (fst (doStep baseUrl outDir i (ScreenshotStep name) w))
                 = stepErrors w
                   ++ [StepError.mk i (ScreenshotStep name) (Js.message e)
                         (Some (shot outDir i))]).
    { rewrite Hrec. simpl. unfold call. simpl. now rewrite Hcap. }
    split; [exact Hs|].
    intros argv tolerate eff. unfold verdictOf, success.
    rewrite Hs, length_app. simpl.
    replace (List.length (stepErrors w) + 1 =? 0)%nat with false; [reflexivity|].
    symmetry. apply Nat.eqb_neq. lia.
Qed.

(** C10. When the action of a step throws, the entry pushed to
    [stepErrors] carries the path [error-step-<i>.png] under the output
    directory, whether or not the capture of that screenshot succeeded; the
    steps that follow leave the entry as it is. *)
Theorem failed_step_keeps_screenshot_path
  (baseUrl outDir : string) (i : nat) (step : Step) (w w1 : World)
  (e : JsError) :
  action baseUrl outDir i step w = (w1, Throw e) ->
  let w' := fst (doStep baseUrl outDir i step w) in
  let entry :=
    StepError.mk i step (Js.message e)
      (Some (path_join outDir
               ("error-step-" ++ Js.of_nat i ++ ".png")%string)) in
  stepErrors w' = stepErrors w ++ [entry]
  /\ (forall j rest,
        exists later,
          stepErrors (fst (forSteps baseUrl outDir j rest w'))
          = stepErrors w ++ entry :: later).
Proof.
  intros Ha w' entry. subst w' entry.
  destruct (doStep_appends baseUrl outDir i step w) as [_ Hrec].
  rewrite Ha in Hrec. simpl in Hrec. split; [exact Hrec|].
  intros j rest.
  destruct (forSteps_appends baseUrl outDir rest j
              (fst (doStep baseUrl outDir i step w))) as [_ Hlater].
  eexists. rewrite Hlater, Hrec, <- app_assoc. reflexivity.
Qed.

(** *** The exit status *)

(** Once [run] has resolved, the exit status is 0 whatever the verdict. *)
Lemma exitStatus_resolved argv s : run argv = Ok s -> exitStatus argv = 0%Z.
Proof. intros Hrun. unfold exitStatus. now rewrite Hrun. Qed.

(** Without a base URL, [run] rejects before the browser is launched and
    the exit status is 1. *)
Lemma exitStatus_no_baseUrl argv test :
  loadTest (Argv.test argv) = Ok test ->
  falsy_string (nullish_opt (Argv.baseUrl argv) (TestDef.baseUrl test)) = true ->
  exitStatus argv = 1%Z.
Proof.
  intros Hload Hbase. unfold exitStatus, run. rewrite Hload. simpl.
  destruct (nullish_opt (Argv.baseUrl argv) (TestDef.baseUrl test))
    as [[|c b]|]; simpl in *; try reflexivity. discriminate.
Qed.

(** The summary with which [run] resolves is the one [summarize] builds
    from the test, the step errors and the signals left by the steps. *)
Lemma run_resolves_with_summary argv s :
  run argv = Ok s ->
  exists test baseUrl outDir newPage,
    loadTest (Argv.test argv) = Ok test
    /\ nullish_opt (Argv.baseUrl argv) (TestDef.baseUrl test) = Some baseUrl
    /\ launch (Argv.headless argv) (Argv.slowMo argv) = Ok newPage
    /\ let w :=
         fst (forSteps baseUrl outDir 0 (TestDef.steps test) (fresh newPage))
       in
       summarize argv test baseUrl (toISOString 1)
         (nullish (TestDef.tolerate test) Tolerate.empty)
         (stepErrors w) (signalsOf w) = Ok s.
Proof.
  unfold run. intros Hrun.
  destruct (loadTest (Argv.test argv)) as [test|] eqn:Hload; [|discriminate].
  simpl in Hrun.
  destruct (nullish_opt (Argv.baseUrl argv) (TestDef.baseUrl test))
    as [[|c b]|] eqn:Hbase; try discriminate.
  destruct (ensureDir _); [|discriminate]. simpl in Hrun.
  destruct (launch _ _) as [newPage|] eqn:Hlaunch; [|discriminate].
  simpl in Hrun.
  match type of Hrun with
  | context [forSteps ?b ?o 0 _ _] =>
      exists test, b, o, newPage;
      destruct (forSteps b o 0 (TestDef.steps test) (fresh newPage))
        as [w r] eqn:Hloop
  end.
  do 3 (split; [first [assumption | reflexivity]|]). simpl.
  destruct r; [|discriminate]. simpl in Hrun.
  destruct (browser_close _); [|discriminate]. simpl in Hrun.
  destruct (summarize _ _ _ _ _ _ _) as [summary|]; [|discriminate].
  simpl in Hrun.
  repeat (destruct (writeFile _ _); [|discriminate]; simpl in Hrun).
  exact Hrun.
Qed.

(* --------------------------------------------------------------------- *)
(** *** The signal collector *)

Lemma listeners_append_per_category (evs : list Event) (w : World) :
  let w' := fold_left listen evs w in
  consoleErrors w' = consoleErrors w ++ flat_map consoleOf evs
  /\ pageErrors w' = pageErrors w ++ flat_map pageErrorOf evs
  /\ requestFailures w' = requestFailures w ++ flat_map requestFailureOf evs
  /\ httpErrors w' = httpErrors w ++ flat_map httpErrorOf evs
  /\ stepErrors w' = stepErrors w
  /\ page w' = page w.
Proof.
  revert w. induction evs as [|ev evs IH]; intros w; simpl.
  - rewrite !app_nil_r. repeat split.
  - destruct (IH (listen w ev)) as (Hc & Hp & Hr & Hh & Hs & Hpage).
    rewrite Hc, Hp, Hr, Hh, Hs, Hpage. clear IH Hc Hp Hr Hh Hs Hpage.
    destruct ev as [type text location|err|url method errorText
                   |url status statusText]; simpl.
    + destruct (String.eqb type "error"); simpl;
        rewrite <- ?app_assoc; repeat split.
    + rewrite <- ?app_assoc; repeat split.
    + rewrite <- ?app_assoc; repeat split.
    + destruct (status >=? 400)%Z; simpl; rewrite <- ?app_assoc;
        repeat split.
Qed.

(** X1. After an awaited page call, each raw log is the old log followed by
    what its own listener keeps of the events of that call, in arrival
    order: console messages of type "error", every page error, every failed
    request, responses of status 400 or more.  The step errors are
    untouched and the call settles as the page says. *)
Theorem call_collects_signals {A} (f : Page -> Reply Page A) (w : World) :
  let r := f (page w) in
  let w' := fst (call f w) in
  consoleErrors w' = consoleErrors w ++ flat_map consoleOf (emitted r)
  /\ pageErrors w' = pageErrors w ++ flat_map pageErrorOf (emitted r)
  /\ requestFailures w'
     = requestFailures w ++ flat_map requestFailureOf (emitted r)
  /\ httpErrors w' = httpErrors w ++ flat_map httpErrorOf (emitted r)
  /\ stepErrors w' = stepErrors w
  /\ page w' = after r
  /\ snd (call f w) = settled r.
Proof.
  unfold call. simpl.
  destruct (listeners_append_per_category (emitted (f (page w)))
              (set_page (after (f (page w))) w))
    as (Hc & Hp & Hr & Hh & Hs & Hpage).
  rewrite Hc, Hp, Hr, Hh, Hs, Hpage. repeat split.
Qed.

Lemma preserves_call {A} P (f : Page -> Reply Page A) :
  stable P -> preserves P (call f).
Proof.
  intros (Hl & Hp & _) w Hw. unfold call. simpl.
  assert (Hfold : forall evs w0, P w0 -> P (fold_left listen evs w0)).
  { induction evs as [|ev evs IH]; intros w0 Hw0; simpl; auto. }
  apply Hfold, Hp, Hw.
Qed.

Lemma preserves_ret {A} P (a : A) : preserves P (ret a).
Proof. intros w Hw. exact Hw. Qed.

Lemma preserves_throw {A} P (e : JsError) : preserves P (@throw A e).
Proof. intros w Hw. exact Hw. Qed.

Lemma preserves_bind {A B} P (m : M A) (k : A -> M B) :
  preserves P m -> (forall a, preserves P (k a)) -> preserves P (bindM m k).
Proof.
  intros Hm Hk w Hw. unfold bindM. specialize (Hm w Hw).
  destruct (m w) as [w' [a|e]]; simpl in *; [|exact Hm].
  now apply Hk.
Qed.

Lemma preserves_try {A} P (m : M A) (h : JsError -> M A) :
  preserves P m -> (forall e, preserves P (h e)) -> preserves P (tryM m h).
Proof.
  intros Hm Hh w Hw. unfold tryM. specialize (Hm w Hw).
  destruct (m w) as [w' [a|e]]; simpl in *; [exact Hm|].
  now apply Hh.
Qed.

Lemma preserves_action P baseUrl outDir i step :
  stable P -> preserves P (action baseUrl outDir i step).
Proof.
  intros HP.
  destruct step; simpl;
    repeat first
      [ apply preserves_bind; [|intros ?]
      | match goal with |- preserves _ (if ?b then _ else _) =>
          destruct b end
      | apply preserves_call; exact HP
      | apply preserves_ret
      | apply preserves_throw ].
Qed.

Lemma preserves_doStep P baseUrl outDir i step :
  stable P -> preserves P (doStep baseUrl outDir i step).
Proof.
  intros HP. unfold doStep.
  apply preserves_try; [now apply preserves_action|].
  intros e. apply preserves_bind.
  - apply preserves_try; [now apply preserves_call|].
    intros ?. apply preserves_ret.
  - intros _ w Hw. simpl. now apply HP.
Qed.

(** Whatever survives the listeners, a page change and a push to
    [stepErrors] survives the whole loop over the steps. *)
Lemma preserves_forSteps P baseUrl outDir steps : forall i,
  stable P -> preserves P (forSteps baseUrl outDir i steps).
Proof.
  induction steps as [|step rest IH]; intros i HP; simpl.
  - apply preserves_ret.
  - apply preserves_bind; [now apply preserves_doStep|].
    intros _. now apply IH.
Qed.

Lemma stable_extends w0 : stable (extends w0).
Proof.
  split; [|split].
  - intros w ev (Hc & Hp & Hr & Hh).
    destruct ev as [type text location|err|url method errorText
                   |url status statusText]; simpl.
    + destruct (String.eqb type "error"); repeat split; simpl;
        auto using prefix_app_r.
    + repeat split; simpl; auto using prefix_app_r.
    + repeat split; simpl; auto using prefix_app_r.
    + destruct (status >=? 400)%Z; repeat split; simpl;
        auto using prefix_app_r.
  - intros w p H. exact H.
  - intros w e H. exact H.
Qed.

(** X2. The raw logs are append-only: the steps of a run never remove or
    reorder a signal that was already collected. *)
Theorem raw_logs_are_append_only
  (baseUrl outDir : string) (i : nat) (steps : list Step) (w : World) :
  extends w (fst (forSteps baseUrl outDir i steps w)).
Proof.
  apply (preserves_forSteps (extends w)); [apply stable_extends|].
  repeat split; reflexivity.
Qed.

Lemma stable_genuine : stable genuine.
Proof.
  split; [|split].
  - intros w ev (Hc & Hh).
    destruct ev as [type text location|err|url method errorText
                   |url status statusText]; simpl.
    + destruct (String.eqb type "error") eqn:E; split; simpl; auto.
      apply Forall_app. split; [assumption|].
      constructor; [|constructor]. simpl. now apply String.eqb_eq.
    + split; assumption.
    + split; assumption.
    + destruct (status >=? 400)%Z eqn:E; split; simpl; auto.
      apply Forall_app. split; [assumption|].
      constructor; [|constructor]. simpl. lia.
  - intros w p H. exact H.
  - intros w e H. exact H.
Qed.

(** X3. From the empty logs of a new page on, the steps only ever collect
    console messages of type "error" and responses of status 400 or
    more. *)
Theorem collected_signals_are_genuine
  (baseUrl outDir : string) (steps : list Step) (newPage : Page) :
  genuine (fst (forSteps baseUrl outDir 0 steps (fresh newPage))).
Proof.
  apply (preserves_forSteps genuine); [apply stable_genuine|].
  split; constructor.
Qed.

(* --------------------------------------------------------------------- *)
(** *** The actions *)

(** X4. Where a navigate step goes, [baseUrl] being the non-empty base URL of
    the run: a non-empty [url] is opened as it is and [path] is ignored; an
    empty [url] throws "navigate requires url or path" even when a path is
    given; without [url] and without (or with an empty) [path] the base URL
    is opened and nothing is thrown; a path that [URL] cannot resolve is
    opened as it is. *)
Theorem navigate_target
  (baseUrl outDir : string) (i : nat) (path : option string) (w : World) :
  baseUrl <> "" ->
  (forall u, u <> "" ->
     action baseUrl outDir i (NavigateStep (Some u) path) w
     = call (page_goto u) w)
  /\ action baseUrl outDir i (NavigateStep (Some "") path) w
     = (w, Throw (Error "navigate requires url or path"))
  /\ (falsy_string path = true ->
      action baseUrl outDir i (NavigateStep None path) w
      = call (page_goto baseUrl) w)
  /\ (forall p e, p <> "" ->
        URL_resolve p baseUrl = Throw e ->
        action baseUrl outDir i (NavigateStep None (Some p)) w
        = call (page_goto p) w).
Proof.
  intros Hbase.
  assert (Hne : forall u, u <> "" -> String.eqb u "" = false).
  { intros u Hu. now apply String.eqb_neq. }
  split; [|split; [|split]].
  - intros u Hu. simpl. now rewrite (Hne u Hu).
  - reflexivity.
  - intros Hpath. simpl.
    destruct path as [[|c p]|]; try discriminate; simpl;
      now rewrite (Hne baseUrl Hbase).
  - intros p e Hp He. simpl.
    destruct p as [|c p]; [congruence|]. simpl. rewrite He.
    now rewrite (Hne (String c p) Hp).
Qed.

(** X5. An expectText step whose wait and read settle normally passes exactly
    when the content read is a non-empty string containing the expected
    text; an empty content fails it, also for an empty expected text. *)
Theorem expectText_passes_iff
  (baseUrl outDir : string) (i : nat) (selector text : string)
  (timeoutMs : option Z) (w w1 w2 : World) (content : option string) :
  call (page_waitForSelector selector visible (nullish timeoutMs 10000%Z)) w
  = (w1, Ok tt) ->
  call (page_textContent selector) w1 = (w2, Ok content) ->
  fst (action baseUrl outDir i (ExpectTextStep selector text timeoutMs) w)
  = w2
  /\ (snd (action baseUrl outDir i
              (ExpectTextStep selector text timeoutMs) w) = Ok tt
      <-> exists c, content = Some c /\ c <> "" /\ includes c text = true).
Proof.
  intros Hwait Hread. unfold action, bindM. rewrite Hwait, Hread.
  destruct content as [[|c0 c]|]; unfold falsy_string, nullish; cbn [orb].
  - split; [reflexivity|]. split; [discriminate|].
    intros (c & Hc & Hne & _). inversion Hc. congruence.
  - destruct (includes (String c0 c) text) eqn:E; cbn [negb].
    + split; [reflexivity|]. split; [|reflexivity].
      intros _. exists (String c0 c). repeat split; [discriminate|exact E].
    + split; [reflexivity|]. split; [discriminate|].
      intros (c' & Hc & _ & Hinc). inversion Hc. subst. congruence.
  - split; [reflexivity|]. split; [discriminate|].
    intros (c & Hc & _). discriminate.
Qed.

Lemma recorded_in_order outDir (tr : list (nat * Step * Exc unit)) :
  sublist (map (fun e => (StepError.index e, StepError.step e))
               (flat_map (recorded outDir) tr))
          (map fst tr)
  /\ Forall (fun e =>
               StepError.screenshot e
               = Some (shot outDir (StepError.index e)))
            (flat_map (recorded outDir) tr).
Proof.
  induction tr as [|[[i step] [[]|e]] tr [IHs IHf]]; simpl.
  - split; constructor.
  - split; [now constructor | assumption].
  - split; [now constructor | now constructor].
Qed.

(** X6. The entries that a loop over the steps adds to [stepErrors] carry
    their step and its 1-based number, appear in step order without
    repetition, and each names the failure screenshot of its own number. *)
Theorem step_errors_are_numbered_in_order
  (baseUrl outDir : string) (steps : list Step) (w : World) :
  exists new,
    stepErrors (fst (forSteps baseUrl outDir 0 steps w))
    = stepErrors w ++ new
    /\ sublist (map (fun e => (StepError.index e, StepError.step e)) new)
               (combine (seq 1 (List.length steps)) steps)
    /\ Forall (fun e =>
                 StepError.screenshot e
                 = Some (shot outDir (StepError.index e))) new.
Proof.
  destruct (forSteps_appends baseUrl outDir steps 0 w) as [_ Hrec].
  destruct (recorded_in_order outDir (attempts baseUrl outDir 0 steps w))
    as [Hsub Hshot].
  rewrite (attempts_steps baseUrl outDir steps 0 w) in Hsub.
  eexists. split; [exact Hrec|]. split; assumption.
Qed.

(* --------------------------------------------------------------------- *)
(** *** More on the tolerance filters *)

Lemma filter_ext_bool {A} (f g : A -> bool) (l : list A) :
  (forall x, f x = g x) -> List.filter f l = List.filter g l.
Proof.
  intros Hfg. induction l as [|x l IH]; simpl; [reflexivity|].
  now rewrite Hfg, IH.
Qed.

Lemma filter_keeps_all {A} (l : list A) : List.filter (fun _ => true) l = l.
Proof. induction l as [|x l IH]; simpl; [reflexivity | now rewrite IH]. Qed.

Lemma existsb_same_entries {A} (f : A -> bool) (l l' : list A) :
  incl l l' -> incl l' l -> existsb f l = existsb f l'.
Proof.
  intros H1 H2.
  destruct (existsb f l) eqn:E.
  - symmetry. now apply (existsb_incl f l l').
  - destruct (existsb f l') eqn:E'; [|reflexivity].
    apply (existsb_incl f l' l) in E'; [congruence | assumption].
Qed.

(** X7. Without a [tolerate] block nothing is filtered, and without override
    flags the verdict is a success exactly when there is no step error and
    no signal at all. *)
Theorem no_tolerance_means_zero_signals
  (argv : Argv.t) (stepErrors : list StepError.t) (raw : Signals) :
  filterSignals Tolerate.empty raw = Ok raw
  /\ (Argv.ignoreHttpErrors argv = false ->
      Argv.ignoreConsoleErrors argv = false ->
      Argv.ignorePageErrors argv = false ->
      Argv.ignoreRequestFailures argv = false ->
      (verdictOf argv Tolerate.empty stepErrors raw = true
       <-> stepErrors = []
           /\ raw = signals [] [] [] [])).
Proof.
  split.
  - rewrite filterSignals_total. destruct raw as [c p r h]. simpl.
    rewrite (filter_ext_bool (keepsConsole Tolerate.empty) (fun _ => true))
      by reflexivity.
    rewrite (filter_ext_bool (keepsHttp Tolerate.empty) (fun _ => true))
      by reflexivity.
    now rewrite !filter_keeps_all.
  - intros Hh Hc Hp Hr.
    unfold verdictOf, success, pageOk, consoleOk, httpOk, reqOk, categoryOk.
    rewrite Hh, Hc, Hp, Hr. simpl.
    rewrite !andb_true_iff, !Nat.eqb_eq.
    destruct raw as [c p r h]. simpl.
    split.
    + intros ((((Hs & Hpl) & Hcl) & Hhl) & Hrl).
      destruct stepErrors, c, p, r, h; try discriminate. auto.
    + intros [-> Hraw]. inversion Hraw. auto.
Qed.

(** X8. The category toggles hide nothing from the report: two tolerances
    with the same three allowlists give the same effective signals. *)
Theorem toggles_do_not_filter (t t' : Tolerate.t) (raw : Signals) :
  Tolerate.httpStatusAllowlist t = Tolerate.httpStatusAllowlist t' ->
  Tolerate.httpUrlAllowlist t = Tolerate.httpUrlAllowlist t' ->
  Tolerate.consolePatternAllowlist t = Tolerate.consolePatternAllowlist t' ->
  filterSignals t raw = filterSignals t' raw.
Proof.
  intros Hs Hu Hk. rewrite !filterSignals_total.
  f_equal. f_equal.
  - apply filter_ext_bool. intros c. unfold keepsConsole. now rewrite Hk.
  - apply filter_ext_bool. intros h.
    unfold keepsHttp, allowByStatus. now rewrite Hs, Hu.
Qed.

(** X9. An allowlist counts as a set: reordering or repeating its entries, or
    writing an empty list instead of none, changes neither the effective
    signals nor the verdict. *)
Theorem allowlists_are_sets
  (argv : Argv.t) (t t' : Tolerate.t) (stepErrors : list StepError.t)
  (raw : Signals) :
  toleratesMore t t' -> toleratesMore t' t ->
  filterSignals t raw = filterSignals t' raw
  /\ forall eff, verdictOf argv t stepErrors eff
                 = verdictOf argv t' stepErrors eff.
Proof.
  intros (Th & Tc & Tp & Tr & Is & Iu & Ik)
         (Th' & Tc' & Tp' & Tr' & Is' & Iu' & Ik').
  split.
  - rewrite !filterSignals_total. f_equal. f_equal.
    + apply filter_ext_bool. intros c. unfold keepsConsole.
      now rewrite (existsb_same_entries _ _ _ Ik Ik').
    + apply filter_ext_bool. intros h. unfold keepsHttp.
      rewrite (existsb_same_entries _ _ _ Iu Iu'). f_equal. f_equal.
      unfold allowByStatus.
      pose proof (existsb_same_entries (Z.eqb (HttpError.status h)) _ _
                    Is Is') as Hst.
      destruct (Tolerate.httpStatusAllowlist t),
               (Tolerate.httpStatusAllowlist t'); simpl in Hst; auto.
  - intros eff.
    assert (Htr : forall a b, (truthy a = true -> truthy b = true) ->
                              (truthy b = true -> truthy a = true) ->
                              truthy a = truthy b).
    { intros a b H1 H2. destruct (truthy a), (truthy b); auto.
      symmetry; auto. }
    unfold verdictOf, pageOk, consoleOk, httpOk, reqOk, categoryOk.
    now rewrite (Htr _ _ Th Th'), (Htr _ _ Tc Tc'), (Htr _ _ Tp Tp'),
                (Htr _ _ Tr Tr').
Qed.

(** X10. Every signal is judged on its own: filtering a log made of two parts
    gives the filtered first part followed by the filtered second part. *)
Theorem filters_distribute_over_append
  (tolerate : Tolerate.t) (h1 h2 : list HttpError.t)
  (c1 c2 : list ConsoleError.t) :
  (exists f1 f2,
     filteredHttpErrors tolerate h1 = Ok f1
     /\ filteredHttpErrors tolerate h2 = Ok f2
     /\ filteredHttpErrors tolerate (h1 ++ h2) = Ok (f1 ++ f2))
  /\ (exists f1 f2,
        filteredConsoleErrors tolerate c1 = Ok f1
        /\ filteredConsoleErrors tolerate c2 = Ok f2
        /\ filteredConsoleErrors tolerate (c1 ++ c2) = Ok (f1 ++ f2)).
Proof.
  split; eexists; eexists.
  - rewrite !filteredHttpErrors_total, List.filter_app. repeat split.
  - rewrite !filteredConsoleErrors_total, List.filter_app. repeat split.
Qed.

(* --------------------------------------------------------------------- *)
(** *** More on the run *)

(** X11. The pre-flight check: when [--baseUrl] is the empty string, or is
    absent while the test has no (or an empty) [baseUrl], [run] rejects
    with its own message and the exit status is 1.  An empty [--baseUrl]
    does so even when the test file has a base URL. *)
Theorem run_rejects_without_baseUrl (argv : Argv.t) (test : TestDef.t) :
  loadTest (Argv.test argv) = Ok test ->
  Argv.baseUrl argv = Some ""
  \/ (Argv.baseUrl argv = None
      /\ falsy_string (TestDef.baseUrl test) = true) ->
  run argv
  = Throw (Error "No baseUrl provided. Pass --baseUrl or set baseUrl in the YAML test.")
  /\ exitStatus argv = 1%Z.
Proof.
  intros Hload Hbase.
  assert (Hrun : run argv = Throw (Error "No baseUrl provided. Pass --baseUrl or set baseUrl in the YAML test.")).
  { unfold run. rewrite Hload. simpl.
    destruct Hbase as [Hb|[Hb Ht]]; rewrite Hb; simpl; [reflexivity|].
    destruct (TestDef.baseUrl test) as [[|c b]|]; try reflexivity.
    discriminate. }
  split; [exact Hrun|]. unfold exitStatus. now rewrite Hrun.
Qed.

(** X12. When the host calls succeed (reading the test, creating the directory,
    launching and closing the browser, writing the files) and a base URL is
    known, [run] resolves and the exit status is 0, whatever the steps, the
    signals and the allowlist patterns are. *)
Theorem run_resolves_whatever_the_page_does
  (argv : Argv.t) (test : TestDef.t) (baseUrl : string) (newPage : Page) :
  loadTest (Argv.test argv) = Ok test ->
  nullish_opt (Argv.baseUrl argv) (TestDef.baseUrl test) = Some baseUrl ->
  baseUrl <> "" ->
  (forall dir, ensureDir dir = Ok tt) ->
  launch (Argv.headless argv) (Argv.slowMo argv) = Ok newPage ->
  (forall p, browser_close p = Ok tt) ->
  (forall file content, writeFile file content = Ok tt) ->
  (exists s, run argv = Ok s) /\ exitStatus argv = 0%Z.
Proof.
  intros Hload Hbase Hne Hdir Hlaunch Hclose Hwrite.
  assert (Hrun : exists s, run argv = Ok s).
  { unfold run. rewrite Hload. simpl. rewrite Hbase.
    destruct baseUrl as [|c b]; [congruence|].
    rewrite Hdir. simpl. rewrite Hlaunch. simpl.
    match goal with
    | |- context [forSteps ?b ?o 0 ?st ?w0] =>
        destruct (forSteps_appends b o st 0 w0) as [Hok _];
        destruct (forSteps b o 0 st w0) as [w r]
    end.
    simpl in Hok. subst r. simpl. rewrite Hclose. simpl.
    match goal with
    | |- context [summarize ?a ?t ?b ?ts ?tol ?se ?raw] =>
        destruct (summarize_total a t b ts tol se raw) as [eff [_ Hsum]];
        rewrite Hsum
    end.
    simpl. rewrite !Hwrite. simpl. eauto. }
  split; [exact Hrun|].
  destruct Hrun as [s Hs]. unfold exitStatus. now rewrite Hs.
Qed.

Lemma Forall_filter_bool {A} (P : A -> Prop) (f : A -> bool) (l : list A) :
  Forall P l -> Forall P (List.filter f l).
Proof.
  induction 1 as [|x l Hx Hl IH]; simpl; [constructor|].
  destruct (f x); [constructor|]; assumption.
Qed.

(** X13. The summary of a run that resolved: it names the test, carries the
    base URL in force ([--baseUrl] before the test's own) and the second
    reading of the clock; its counts are the lengths of its lists; there
    are at most as many step errors as steps; success implies no step
    error; its console errors are of type "error" and its http errors have
    a status of 400 or more. *)
Theorem run_summary_is_consistent
  (argv : Argv.t) (test : TestDef.t) (s : Summary.t) :
  loadTest (Argv.test argv) = Ok test ->
  run argv = Ok s ->
  Summary.testName s = TestDef.name test
  /\ Summary.description s = TestDef.description test
  /\ nullish_opt (Argv.baseUrl argv) (TestDef.baseUrl test)
     = Some (Summary.baseUrl s)
  /\ Summary.baseUrl s <> ""
  /\ Summary.timestamp s = toISOString 1
  /\ Summary.counts s
     = Counts.mk (List.length (Summary.stepErrors s))
                 (List.length (Summary.pageErrors s))
                 (List.length (Summary.consoleErrors s))
                 (List.length (Summary.httpErrors s))
                 (List.length (Summary.requestFailures s))
  /\ (List.length (Summary.stepErrors s)
      <= List.length (TestDef.steps test))%nat
  /\ (Summary.success s = true -> Summary.stepErrors s = [])
  /\ Forall (fun c => ConsoleError.type c = "error")
            (Summary.consoleErrors s)
  /\ Forall (fun h => (400 <= HttpError.status h)%Z)
            (Summary.httpErrors s).
Proof.
  intros Hload Hrun.
  assert (Hne : Summary.baseUrl s <> ""
                /\ nullish_opt (Argv.baseUrl argv) (TestDef.baseUrl test)
                   = Some (Summary.baseUrl s)).
  { unfold run in Hrun. rewrite Hload in Hrun. simpl in Hrun.
    destruct (nullish_opt (Argv.baseUrl argv) (TestDef.baseUrl test))
      as [[|c b]|]; try discriminate.
    destruct (ensureDir _); [|discriminate]. simpl in Hrun.
    destruct (launch _ _) as [newPage|]; [|discriminate]. simpl in Hrun.
    destruct (forSteps _ _ 0 _ _) as [w r].
    destruct r; [|discriminate]. simpl in Hrun.
    destruct (browser_close _); [|discriminate]. simpl in Hrun.
    match type of Hrun with
    | context [summarize ?a ?t ?b ?ts ?tol ?se ?raw] =>
        destruct (summarize_total a t b ts tol se raw) as [eff [_ Hsum]];
        rewrite Hsum in Hrun
    end.
    simpl in Hrun.
    repeat (destruct (writeFile _ _); [|discriminate]; simpl in Hrun).
    inversion Hrun. simpl. split; [discriminate | reflexivity]. }
  destruct Hne as [Hne Hbase].
  destruct (run_resolves_with_summary argv s Hrun)
    as (test' & baseUrl & outDir & newPage & Hload' & Hbase' & _ & Hsum).
  rewrite Hload in Hload'. inversion Hload'. subst test'. clear Hload'.
  simpl in Hsum.
  destruct (forSteps_appends baseUrl outDir (TestDef.steps test) 0
              (fresh newPage)) as [_ Hrec].
  pose proof (collected_signals_are_genuine baseUrl outDir
                (TestDef.steps test) newPage) as [Hgc Hgh].
  pose proof (recorded_count outDir
                (attempts baseUrl outDir 0 (TestDef.steps test)
                   (fresh newPage))) as Hcount.
  pose proof (attempts_steps baseUrl outDir (TestDef.steps test) 0
                (fresh newPage)) as Hsteps.
  apply (f_equal (@List.length _)) in Hsteps.
  rewrite length_map, length_combine, length_seq, Nat.min_id in Hsteps.
  set (w := fst (forSteps baseUrl outDir 0 (TestDef.steps test)
                   (fresh newPage))) in *.
  destruct (summarize_total argv test baseUrl (toISOString 1)
              (nullish (TestDef.tolerate test) Tolerate.empty)
              (stepErrors w) (signalsOf w)) as [eff [Heff Hs]].
  rewrite Hs in Hsum. inversion Hsum. subst s. clear Hsum Hs. simpl in *.
  rewrite filterSignals_total in Heff. inversion Heff. subst eff. clear Heff.
  simpl.
  repeat split; try assumption.
  - rewrite Hrec. simpl. lia.
  - unfold verdictOf, success. rewrite !andb_true_iff, Nat.eqb_eq.
    intros ((((Hlen & _) & _) & _) & _).
    now apply length_zero_iff_nil.
  - now apply Forall_filter_bool.
  - now apply Forall_filter_bool.
Qed.

End Runner.

(* ===================================================================== *)
(** ** Concrete runs on the scripted browser *)
(* ===================================================================== *)

(** The runner keeps no record of the steps that passed: after five steps
    of which the third fails, [stepErrors] has one entry, numbered 3, and
    nothing at position 2. *)
Lemma step_errors_not_one_per_step :
  let after :=
    fst (forSteps (PW := Scripted.playwright)
           (HOST := Scripted.host Scripted.loginTest Scripted.sighted)
           Scripted.base Scripted.outDir 0 Scripted.loginSteps
           (fresh Scripted.sighted)) in
  List.length (stepErrors after) <> List.length Scripted.loginSteps
  /\ map StepError.index (stepErrors after) = [3%nat]
  /\ nth_error (stepErrors after) 2 = None.
Proof. vm_compute. repeat split; discriminate. Qed.

Lemma step_errors_record_failed_steps_witness :
  In (StepError.mk 3 (ClickStep "#missing")
        "Timeout 30000ms exceeded waiting for #missing"
        (Some "reports/login-flow/error-step-3.png"))
     (stepErrors
        (fst (forSteps (PW := Scripted.playwright)
                (HOST := Scripted.host Scripted.loginTest Scripted.sighted)
                Scripted.base Scripted.outDir 0 Scripted.loginSteps
                (fresh Scripted.sighted)))).
Proof.
  apply (step_errors_record_failed_steps
           (PW := Scripted.playwright)
           (HOST := Scripted.host Scripted.loginTest Scripted.sighted)
           Scripted.base Scripted.outDir Scripted.loginSteps
           (fresh Scripted.sighted))
    with (e := Scripted.timeout "#missing").
  vm_compute. auto.
Defined.

Lemma category_ok_iff_witness :
  pageOk Scripted.argv Scripted.pagesTolerated
         (filteredPageErrors ["TypeError: x is undefined"]) = true.
Proof.
  destruct (category_ok_iff (RE := Scripted.literalEngine)
              Scripted.argv Scripted.pagesTolerated
              (signals [] ["TypeError: x is undefined"] [] []))
    as (eff & _ & _ & _ & _ & _ & Hexample).
  destruct (Hexample "TypeError: x is undefined" eq_refl eq_refl)
    as [Hlist Hok].
  rewrite Hlist in Hok. exact Hok.
Defined.

Lemma allowlist_match_never_raises_witness :
  RegExp_new (RegExpEngine := Scripted.literalEngine) "["
  = Throw (Error "Invalid regular expression: /[/")
  /\ filteredHttpErrors (RE := Scripted.literalEngine)
       Scripted.bracketOnly [Scripted.unauthorized]
     = Ok [Scripted.unauthorized].
Proof.
  split; [reflexivity|].
  destruct (allowlist_match_never_raises (RE := Scripted.literalEngine)
              (HttpError.url Scripted.unauthorized) None)
    as (_ & _ & _ & Hexample).
  destruct (Hexample (Error "Invalid regular expression: /[/")
              Scripted.bracketOnly Scripted.unauthorized
              eq_refl eq_refl eq_refl eq_refl) as [Hfiltered _].
  exact Hfiltered.
Defined.

Lemma http_error_suppressed_iff_witness :
  (filteredHttpErrors (RE := Scripted.literalEngine)
     Scripted.allow401 [Scripted.unauthorized] = Ok []
   /\ httpOk Scripted.argv Scripted.allow401 [] = true)
  /\ (exists eff,
        filteredHttpErrors (RE := Scripted.literalEngine)
          Scripted.loginUrlAllowed [Scripted.unauthorized] = Ok eff
        /\ ~ In Scripted.unauthorized eff)
  /\ (exists eff,
        filteredHttpErrors (RE := Scripted.literalEngine)
          Scripted.bracketOnly [Scripted.bracketed] = Ok eff
        /\ ~ In Scripted.bracketed eff).
Proof.
  split; [|split].
  - destruct (http_error_suppressed_iff (RE := Scripted.literalEngine)
                Scripted.allow401 [Scripted.unauthorized])
      as (eff & Heff & _ & _ & _ & _ & Hexample).
    destruct (Hexample Scripted.unauthorized Scripted.argv
                eq_refl eq_refl eq_refl) as [Hnil Hok].
    rewrite Hnil in Heff, Hok. split; assumption.
  - destruct (http_error_suppressed_iff (RE := Scripted.literalEngine)
                Scripted.loginUrlAllowed [Scripted.unauthorized])
      as (eff & Heff & _ & _ & Hiff & _).
    exists eff. split; [exact Heff|].
    apply (Hiff Scripted.unauthorized (or_introl eq_refl)).
    right. exists ["LOGIN"], "LOGIN". split; [reflexivity|].
    split; [left; reflexivity|].
    left. exists "login". split; reflexivity.
  - destruct (http_error_suppressed_iff (RE := Scripted.literalEngine)
                Scripted.bracketOnly [Scripted.bracketed])
      as (eff & Heff & _ & _ & Hiff & _).
    exists eff. split; [exact Heff|].
    apply (Hiff Scripted.bracketed (or_introl eq_refl)).
    right. exists ["["], "[". split; [reflexivity|].
    split; [left; reflexivity|].
    right. exists (Error "Invalid regular expression: /[/").
    split; [reflexivity|].
    exists "http://localhost:3000/items", "1]". reflexivity.
Defined.

Lemma verdict_monotone_in_tolerance_witness :
  Enlarged Tolerate.empty Scripted.allow401
  /\ exists s s',
       summarize (RE := Scripted.literalEngine) Scripted.argv
         Scripted.loginTest Scripted.base "2024-05-01T10:20:31.000Z"
         Tolerate.empty [] (signals [] [] [] [Scripted.unauthorized]) = Ok s
       /\ summarize (RE := Scripted.literalEngine) Scripted.argv
            Scripted.loginTest Scripted.base "2024-05-01T10:20:31.000Z"
            Scripted.allow401 [] (signals [] [] [] [Scripted.unauthorized])
          = Ok s'
       /\ (Summary.success s = true -> Summary.success s' = true).
Proof.
  assert (Henl : Enlarged Tolerate.empty Scripted.allow401).
  { apply (add_httpStatus None None None None None None None [] [] 401%Z).
    reflexivity. }
  split; [exact Henl|].
  exact (verdict_monotone_in_tolerance (RE := Scripted.literalEngine)
           Scripted.argv Scripted.loginTest Scripted.base
           "2024-05-01T10:20:31.000Z" Tolerate.empty Scripted.allow401 []
           (signals [] [] [] [Scripted.unauthorized]) Henl).
Defined.

(** A screenshot step whose capture throws turns a passing run into a
    failing one: the same page, the same signals (none) and the same
    passing click, with and without the screenshot step. *)
Lemma failing_screenshot_step_fails_the_run :
  exists s1 s2,
    run (PW := Scripted.playwright) (RE := Scripted.literalEngine)
        (HOST := Scripted.host Scripted.shotTest Scripted.blind)
        Scripted.argv = Ok s1
    /\ run (PW := Scripted.playwright) (RE := Scripted.literalEngine)
           (HOST := Scripted.host Scripted.plainTest Scripted.blind)
           Scripted.argv = Ok s2
    /\ map StepError.step (Summary.stepErrors s1) = [ScreenshotStep None]
    /\ Summary.stepErrors s2 = []
    /\ Summary.counts s1 = Counts.mk 1 0 0 0 0
    /\ Summary.counts s2 = Counts.mk 0 0 0 0 0
    /\ Summary.success s1 = false
    /\ Summary.success s2 = true.
Proof.
  eexists. eexists.
  split; [vm_compute; reflexivity|].
  split; [vm_compute; reflexivity|].
  repeat split.
Qed.

Lemma screenshot_step_fails_only_with_its_capture_witness :
  settled (page_screenshot (Playwright := Scripted.playwright)
             (screenshotFile
                (HOST := Scripted.host Scripted.shotTest Scripted.blind)
                Scripted.outDir 2 None)
             Scripted.blind)
  = Throw (Error "Target page has been closed")
  /\ forall argv tolerate eff,
       verdictOf argv tolerate
         (stepErrors
            (fst (doStep (PW := Scripted.playwright)
                    (HOST := Scripted.host Scripted.shotTest Scripted.blind)
                    Scripted.base Scripted.outDir 2 (ScreenshotStep None)
                    (fresh Scripted.blind))))
         eff = false.
Proof.
  split; [reflexivity|].
  destruct (screenshot_step_fails_only_with_its_capture
              (PW := Scripted.playwright)
              (HOST := Scripted.host Scripted.shotTest Scripted.blind)
              Scripted.base Scripted.outDir 2 None (fresh Scripted.blind))
    as (_ & _ & Hthrows).
  destruct (Hthrows (Error "Target page has been closed") eq_refl)
    as [_ Hverdict].
  exact Hverdict.
Defined.

Lemma failed_step_keeps_screenshot_path_witness :
  action (PW := Scripted.playwright)
         (HOST := Scripted.host Scripted.loginTest Scripted.blind)
         Scripted.base Scripted.outDir 3 (ClickStep "#missing")
         (fresh Scripted.blind)
  = (fresh Scripted.blind, Throw (Scripted.timeout "#missing"))
  /\ settled (page_screenshot (Playwright := Scripted.playwright)
                "reports/login-flow/error-step-3.png" Scripted.blind)
     = Throw (Error "Target page has been closed")
  /\ stepErrors
       (fst (doStep (PW := Scripted.playwright)
               (HOST := Scripted.host Scripted.loginTest Scripted.blind)
               Scripted.base Scripted.outDir 3 (ClickStep "#missing")
               (fresh Scripted.blind)))
     = [StepError.mk 3 (ClickStep "#missing")
          "Timeout 30000ms exceeded waiting for #missing"
          (Some "reports/login-flow/error-step-3.png")].
Proof.
  split; [reflexivity|]. split; [reflexivity|].
  destruct (failed_step_keeps_screenshot_path
              (PW := Scripted.playwright)
              (HOST := Scripted.host Scripted.loginTest Scripted.blind)
              Scripted.base Scripted.outDir 3 (ClickStep "#missing")
              (fresh Scripted.blind) (fresh Scripted.blind)
              (Scripted.timeout "#missing") eq_refl) as [Hentry _].
  exact Hentry.
Defined.

(** C8, on a run whose verdict is a failure.  The third step of the login
    test fails, [run] resolves with [success = false], and the process
    ends with status 0: nothing in runner.ts turns the verdict into the
    exit status. *)
Theorem failed_verdict_exits_with_zero :
  exists s,
    run (PW := Scripted.playwright) (RE := Scripted.literalEngine)
        (HOST := Scripted.host Scripted.loginTest Scripted.sighted)
        Scripted.argv = Ok s
    /\ Summary.success s = false
    /\ exitStatus (PW := Scripted.playwright) (RE := Scripted.literalEngine)
         (HOST := Scripted.host Scripted.loginTest Scripted.sighted)
         Scripted.argv = 0%Z.
Proof.
  eexists. split; [vm_compute; reflexivity|]. split; reflexivity.
Qed.

(* ===================================================================== *)
(** ** Slugs and stamps *)
(* ===================================================================== *)

Lemma slug_char_not_dash c : is_slug_char c = true -> Ascii.eqb c "-" = false.
Proof.
  intros H. destruct (Ascii.eqb c "-") eqn:E; [|reflexivity].
  apply Ascii.eqb_eq in E. subst c. discriminate.
Qed.

Lemma dash_runs_shape s : forall in_run,
  slugShape in_run (dash_runs in_run s) = true.
Proof.
  induction s as [|c s IH]; intros in_run; simpl; [reflexivity|].
  destruct (is_slug_char c) eqn:Ec.
  - simpl. rewrite (slug_char_not_dash c Ec), Ec. simpl. apply IH.
  - destruct in_run; [apply IH|]. simpl. apply IH.
Qed.

Lemma slugShape_weaken s : slugShape true s = true -> slugShape false s = true.
Proof.
  destruct s as [|c s]; simpl; [reflexivity|].
  destruct (Ascii.eqb c "-"); [discriminate | auto].
Qed.

Lemma drop_leading_dash_shape s :
  slugShape false s = true -> slugShape true (drop_leading_dash s) = true.
Proof.
  destruct s as [|c s]; [reflexivity|].
  unfold drop_leading_dash.
  destruct (Ascii.eqb c "-") eqn:E.
  - apply Ascii.eqb_eq in E. subst c. simpl. auto.
  - assert (Hc : c <> "-"%char) by (now apply Ascii.eqb_neq).
    intros H.
    replace (match c with
             | "-"%char => s
             | _ => String c s
             end) with (String c s).
    + simpl in *. now rewrite E in *.
    + destruct c as [[] [] [] [] [] [] [] []]; try reflexivity.
      congruence.
Qed.

Lemma drop_trailing_dash_unfold c s :
  drop_trailing_dash (String c s)
  = match s with
    | EmptyString => if Ascii.eqb c "-" then EmptyString else String c s
    | String _ _ => String c (drop_trailing_dash s)
    end.
Proof. destruct s; reflexivity. Qed.

Lemma drop_trailing_dash_shape s : forall b,
  slugShape b s = true ->
  slugShape b (drop_trailing_dash s) = true
  /\ endsWithDash (drop_trailing_dash s) = false.
Proof.
  induction s as [|c s IH]; intros b H; [split; reflexivity|].
  rewrite drop_trailing_dash_unfold.
  destruct s as [|d s].
  - destruct (Ascii.eqb c "-") eqn:E; [split; reflexivity|].
    split; [exact H|]. simpl. exact E.
  - simpl in H. destruct (Ascii.eqb c "-") eqn:E.
    + apply andb_true_iff in H as [Hb Hs].
      destruct (IH true Hs) as [IH1 IH2].
      split.
      * cbn [slugShape]. rewrite E, Hb. exact IH1.
      * destruct (drop_trailing_dash (String d s)) as [|e r] eqn:Ed.
        -- (* the rest was a single dash, impossible after a dash *)
           exfalso. rewrite drop_trailing_dash_unfold in Ed.
           destruct s; [|discriminate].
           destruct (Ascii.eqb d "-") eqn:Edd; [|discriminate].
           simpl in Hs. rewrite ?Edd in Hs. discriminate.
        -- exact IH2.
    + apply andb_true_iff in H as [Hc Hs].
      destruct (IH false Hs) as [IH1 IH2].
      split.
      * cbn [slugShape]. rewrite E, Hc. exact IH1.
      * destruct (drop_trailing_dash (String d s)) as [|e r] eqn:Ed.
        -- simpl. exact E.
        -- exact IH2.
Qed.

Lemma slugShape_chars s : forall b,
  slugShape b s = true ->
  allChars (fun c => is_slug_char c || Ascii.eqb c "-") s = true.
Proof.
  induction s as [|c s IH]; intros b H; simpl in *; [reflexivity|].
  destruct (Ascii.eqb c "-") eqn:E.
  - apply andb_true_iff in H as [_ H]. rewrite orb_true_r. simpl. eauto.
  - apply andb_true_iff in H as [Hc H]. rewrite Hc. simpl. eauto.
Qed.

Lemma slugShape_no_double_dash s : forall b,
  slugShape b s = true -> includes s "--" = false.
Proof.
  induction s as [|c s IH]; intros b H; rewrite includes_unfold.
  - reflexivity.
  - destruct (String.prefix "--" (String c s)) eqn:P.
    + exfalso. apply prefix_app in P as [r Hr].
      inversion Hr. subst c s. simpl in H.
      apply andb_true_iff in H as [_ H]. discriminate.
    + simpl in H. destruct (Ascii.eqb c "-");
        apply andb_true_iff in H as [_ H]; eauto.
Qed.

(** X14. A slug is made of the characters a-z, 0-9 and dashes, has no two
    dashes in a row, and neither starts nor ends with a dash; this holds
    for the slug of every string. *)
Theorem slugify_shape (s : string) :
  allChars (fun c => is_slug_char c || Ascii.eqb c "-") (slugify s) = true
  /\ includes (slugify s) "--" = false
  /\ String.prefix "-" (slugify s) = false
  /\ endsWithDash (slugify s) = false.
Proof.
  unfold slugify.
  pose proof (dash_runs_shape (toLowerCase s) false) as H0.
  apply drop_leading_dash_shape in H0.
  destruct (drop_trailing_dash_shape _ true H0) as [H1 H2].
  split; [eapply slugShape_chars; eassumption|].
  split; [eapply slugShape_no_double_dash; eassumption|].
  split; [|exact H2].
  destruct (String.prefix "-" (drop_trailing_dash _)) eqn:P; [|reflexivity].
  exfalso. apply prefix_app in P as [r Hr].
  rewrite Hr in H1. discriminate.
Qed.

Lemma lower_slug_char c :
  is_slug_char c || Ascii.eqb c "-" = true -> lower c = c.
Proof.
  unfold lower, is_slug_char. intros H.
  destruct ((65 <=? nat_of_ascii c)%nat && (nat_of_ascii c <=? 90)%nat)
    eqn:E; [|reflexivity].
  exfalso. apply andb_true_iff in E as [E1 E2].
  apply Nat.leb_le in E1, E2.
  apply orb_true_iff in H as [H|H].
  - apply orb_true_iff in H as [H|H];
      apply andb_true_iff in H as [H1 H2];
      apply Nat.leb_le in H1, H2; lia.
  - apply Ascii.eqb_eq in H. subst c. vm_compute in E1. lia.
Qed.

Lemma toLowerCase_slug s : forall b,
  slugShape b s = true -> toLowerCase s = s.
Proof.
  intros b H. apply slugShape_chars in H.
  induction s as [|c s IH]; simpl in *; [reflexivity|].
  apply andb_true_iff in H as [Hc Hs].
  now rewrite (lower_slug_char c Hc), IH.
Qed.

Lemma dash_runs_slug s : forall b in_run,
  slugShape b s = true -> (in_run = true -> b = true) ->
  dash_runs in_run s = s.
Proof.
  induction s as [|c s IH]; intros b in_run H Hb; simpl in *; [reflexivity|].
  destruct (Ascii.eqb c "-") eqn:E.
  - apply andb_true_iff in H as [Hnb H].
    apply Ascii.eqb_eq in E. subst c. simpl.
    destruct in_run.
    + rewrite (Hb eq_refl) in Hnb. discriminate.
    + f_equal. apply (IH true true H). auto.
  - apply andb_true_iff in H as [Hc H]. rewrite Hc.
    f_equal. apply (IH false false H). discriminate.
Qed.

Lemma drop_trailing_dash_none s :
  endsWithDash s = false -> drop_trailing_dash s = s.
Proof.
  induction s as [|c s IH]; intros H; [reflexivity|].
  rewrite drop_trailing_dash_unfold.
  destruct s as [|d s].
  - simpl in H. now rewrite H.
  - f_equal. apply IH. exact H.
Qed.

(** X15. The slugs are exactly the strings that [slugify] leaves alone, so
    slugifying twice is slugifying once. *)
Theorem slugify_fixes_slugs (s : string) :
  (slugify s = s <-> slugShape true s = true /\ endsWithDash s = false)
  /\ slugify (slugify s) = slugify s.
Proof.
  assert (Hshape : forall t, slugShape true (slugify t) = true
                             /\ endsWithDash (slugify t) = false).
  { intros t. unfold slugify.
    pose proof (dash_runs_shape (toLowerCase t) false) as H0.
    apply drop_leading_dash_shape in H0.
    exact (drop_trailing_dash_shape _ true H0). }
  assert (Hfix : forall t, slugShape true t = true ->
                           endsWithDash t = false -> slugify t = t).
  { intros t Ht He. unfold slugify.
    rewrite (toLowerCase_slug t true Ht).
    rewrite (dash_runs_slug t true false Ht) by discriminate.
    replace (drop_leading_dash t) with t.
    - now apply drop_trailing_dash_none.
    - destruct t as [|c t]; [reflexivity|].
      simpl in Ht. destruct (Ascii.eqb c "-") eqn:E; [discriminate|].
      unfold drop_leading_dash.
      destruct c as [[] [] [] [] [] [] [] []]; try reflexivity.
      discriminate. }
  split.
  - split.
    + intros Heq. rewrite <- Heq. apply Hshape.
    + intros [Ht He]. now apply Hfix.
  - destruct (Hshape s) as [Ht He]. now apply Hfix.
Qed.

(** X16. The stamp made from an ISO time has the length of that time and
    contains neither a colon nor a dot; a string without them is left
    as it is. *)
Theorem stamp_has_no_colon_or_dot (s : string) :
  String.length (dash_colons_dots s) = String.length s
  /\ allChars (fun c => negb (Ascii.eqb c ":" || Ascii.eqb c "."))
              (dash_colons_dots s) = true
  /\ (allChars (fun c => negb (Ascii.eqb c ":" || Ascii.eqb c ".")) s = true
      -> dash_colons_dots s = s).
Proof.
  induction s as [|c s (IHl & IHc & IHi)]; simpl; [repeat split|].
  split; [now rewrite IHl|].
  destruct (Ascii.eqb c ":" || Ascii.eqb c ".") eqn:E; simpl.
  - split; [exact IHc | discriminate].
  - rewrite E. simpl. split; [exact IHc|].
    intros H. now rewrite (IHi H).
Qed.

(* ===================================================================== *)
(** ** The report texts *)
(* ===================================================================== *)

Lemma concat_starts_with (sep a : string) (rest : list string) :
  exists tail, String.concat sep (a :: rest) = (a ++ tail)%string.
Proof.
  destruct rest as [|b rest]; simpl.
  - exists "". induction a as [|c a IH]; simpl; [reflexivity|].
    now rewrite <- IH.
  - eexists. reflexivity.
Qed.

Lemma string_app_assoc (a b c : string) :
  ((a ++ b) ++ c = a ++ (b ++ c))%string.
Proof. induction a as [|x a IH]; simpl; [reflexivity | now rewrite IH]. Qed.

Lemma block_none {A} (item : A -> string) (signals : list A) :
  (forall x, exists tail, item x = ("- " ++ tail)%string) ->
  (Report.block item signals = "(none)" <-> signals = []).
Proof.
  intros Hitem. split; [|intros ->; reflexivity].
  destruct signals as [|x rest]; [reflexivity|].
  unfold Report.block, Report.join. simpl map.
  destruct (concat_starts_with Report.nl (item x) (map item rest))
    as [tail Htail].
  destruct (Hitem x) as [t Ht]. rewrite Htail, Ht. discriminate.
Qed.

(** X17. In the builder prompt a signal block reads "(none)" exactly when the
    summary has no signal of that category, and the reproduction section
    reads "No step errors ..." exactly when the summary has no step
    error. *)
Theorem prompt_says_none_iff_empty
  (stringify : Step -> string) (s : Summary.t) :
  (Report.pageBlock s = "(none)" <-> Summary.pageErrors s = [])
  /\ (Report.consoleBlock s = "(none)" <-> Summary.consoleErrors s = [])
  /\ (Report.httpBlock s = "(none)" <-> Summary.httpErrors s = [])
  /\ (Report.reqFailBlock s = "(none)" <-> Summary.requestFailures s = [])
  /\ (Report.reproductionOrNote stringify s
      = "No step errors — see HTTP/console errors below."
      <-> Summary.stepErrors s = []).
Proof.
  split; [|split; [|split; [|split]]].
  - apply block_none. intros x. eexists. reflexivity.
  - apply block_none. intros x. eexists. reflexivity.
  - apply block_none. intros x. eexists. reflexivity.
  - apply block_none. intros x. eexists. reflexivity.
  - unfold Report.reproductionOrNote, Report.reproduction, Report.join.
    destruct (Summary.stepErrors s) as [|e rest]; [split; reflexivity|].
    split; [|discriminate].
    cbn [imap].
    match goal with
    | |- context [String.concat ?sep (?a :: ?l)] =>
        destruct (concat_starts_with sep a l) as [tail Htail];
        rewrite Htail
    end.
    unfold Report.reproductionItem.
    change (Js.of_nat (0 + 1)) with "1".
    rewrite !string_app_assoc. simpl. discriminate.
Qed.

Lemma lineBreaks_app (a b : string) :
  Report.lineBreaks (a ++ b)
  = (Report.lineBreaks a + Report.lineBreaks b)%nat.
Proof.
  induction a as [|c a IH]; simpl; [reflexivity|]. rewrite IH. lia.
Qed.

Lemma lineBreaks_digits d :
  Report.lineBreaks (NilEmpty.string_of_uint d) = 0%nat.
Proof. induction d; simpl; auto. Qed.

Lemma lineBreaks_of_nat n : Report.lineBreaks (Js.of_nat n) = 0%nat.
Proof.
  unfold Js.of_nat, NilZero.string_of_uint.
  destruct (Nat.to_uint n) eqn:E; try reflexivity;
    rewrite <- E; apply lineBreaks_digits.
Qed.

(** X18. The text of tldr.txt has four line breaks besides those of the test
    name, the base URL and the time stamp: five lines when these are on
    one line each. *)
Theorem tldr_has_five_lines (s : Summary.t) :
  Report.lineBreaks (Report.buildTLDR s)
  = (4 + Report.lineBreaks (Summary.testName s)
     + Report.lineBreaks (Summary.baseUrl s)
     + Report.lineBreaks (Summary.timestamp s))%nat.
Proof.
  unfold Report.buildTLDR, Report.join. cbn [String.concat].
  rewrite !lineBreaks_app, !lineBreaks_of_nat.
  destruct (Summary.success s); simpl; lia.
Qed.

(* ===================================================================== *)
(** ** The test builder *)
(* ===================================================================== *)

Lemma setLast_snoc (x y : Step) (l : list Step) :
  Builder.setLast x (l ++ [y]) = l ++ [x].
Proof.
  unfold Builder.setLast. rewrite length_app. simpl.
  replace (List.length l + 1 - 1)%nat with (List.length l + 0)%nat by lia.
  now rewrite insert_app_r.
Qed.

(** What a payload does to a list of steps that ends with [y]. *)
Lemma recordedSteps_shape (payload : Builder.Payload) (steps : list Step) :
  Builder.recordedSteps payload steps = steps
  \/ (exists x, Builder.recordedSteps payload steps = steps ++ [x])
  \/ (exists l y x, steps = l ++ [y]
                    /\ Builder.recordedSteps payload steps = l ++ [x]).
Proof.
  destruct steps as [|y0 l0] using rev_ind.
  - destruct payload as [sel|sel text|key| |kind]; simpl; eauto.
    destruct (String.eqb key "Enter"); auto.
  - clear IHl0.
    destruct payload as [sel|sel text|key| |kind]; simpl; eauto.
    + rewrite last_snoc.
      destruct y0; eauto.
      destruct (String.eqb selector sel); eauto.
      right. right. eexists _, _, _. split; [reflexivity|].
      apply setLast_snoc.
    + destruct (String.eqb key "Enter"); auto.
      rewrite last_snoc. destruct y0; auto.
      right. right. eexists _, _, _. split; [reflexivity|].
      apply setLast_snoc.
Qed.

(** X19. A window message changes nothing but the steps; a message without
    data, of another type or of another session changes nothing at all;
    an accepted one adds at most one step, removes none, and leaves every
    step but the last as it was. *)
Theorem onMsg_touches_only_the_last_step
  (session : string) (d : option Builder.Message) (prev : TestDef.t) :
  let next := Builder.onMsg session d prev in
  TestDef.name next = TestDef.name prev
  /\ TestDef.description next = TestDef.description prev
  /\ TestDef.baseUrl next = TestDef.baseUrl prev
  /\ TestDef.tolerate next = TestDef.tolerate prev
  /\ (List.length (TestDef.steps prev) <= List.length (TestDef.steps next)
      <= List.length (TestDef.steps prev) + 1)%nat
  /\ take (List.length (TestDef.steps prev) - 1) (TestDef.steps next)
     = take (List.length (TestDef.steps prev) - 1) (TestDef.steps prev)
  /\ (forall m, d = Some m ->
        Builder.type m <> "wt-recorder" \/ Builder.sessionId m <> session ->
        next = prev).
Proof.
  assert (Hforeign : forall m,
            Builder.type m <> "wt-recorder" \/ Builder.sessionId m <> session ->
            negb (String.eqb (Builder.type m) "wt-recorder")
            || negb (String.eqb (Builder.sessionId m) session) = true).
  { intros m [H|H]; apply String.eqb_neq in H; rewrite H; simpl;
      [reflexivity | apply orb_true_r]. }
  unfold Builder.onMsg.
  destruct d as [m|].
  2:{ simpl. repeat split; lia. }
  destruct (negb (String.eqb (Builder.type m) "wt-recorder")
            || negb (String.eqb (Builder.sessionId m) session)) eqn:E.
  { simpl. repeat split; lia. }
  simpl.
  do 4 (split; [reflexivity|]).
  destruct (recordedSteps_shape (Builder.payload m) (TestDef.steps prev))
    as [Hsame|[[x Hadd]|(l & y & x & Hl & Hset)]].
  - rewrite Hsame. split; [lia|]. split; [reflexivity|].
    intros m' Hm' Hf. inversion Hm'. subst m'.
    rewrite (Hforeign m Hf) in E. discriminate.
  - rewrite Hadd, length_app. simpl. split; [lia|]. split.
    + rewrite take_app_le by lia. reflexivity.
    + intros m' Hm' Hf. inversion Hm'. subst m'.
      rewrite (Hforeign m Hf) in E. discriminate.
  - rewrite Hset, Hl, !length_app. simpl. split; [lia|]. split.
    + replace (List.length l + 1 - 1)%nat with (List.length l) by lia.
      now rewrite !take_app_length.
    + intros m' Hm' Hf. inversion Hm'. subst m'.
      rewrite (Hforeign m Hf) in E. discriminate.
Qed.

Lemma typed_after (selector text : string) (l : list Step) (y : Step) :
  Builder.recordedSteps (Builder.typed selector text) (l ++ [y])
  = match y with
    | TypeStep selector' _ pressEnter =>
        if String.eqb selector' selector
        then l ++ [TypeStep selector' text pressEnter]
        else (l ++ [y]) ++ [TypeStep selector text None]
    | _ => (l ++ [y]) ++ [TypeStep selector text None]
    end.
Proof.
  cbn [Builder.recordedSteps]. rewrite last_snoc.
  destruct y; try reflexivity.
  destruct (String.eqb _ selector); [apply setLast_snoc | reflexivity].
Qed.

(** X20. Typing twice into the same field keeps one type step with the last
    value: the first of two consecutive values for one selector is
    forgotten. *)
Theorem typing_keeps_the_last_value
  (selector text1 text2 : string) (steps : list Step) :
  Builder.recordedSteps (Builder.typed selector text2)
    (Builder.recordedSteps (Builder.typed selector text1) steps)
  = Builder.recordedSteps (Builder.typed selector text2) steps.
Proof.
  destruct steps as [|y l _] using rev_ind.
  - simpl. rewrite String.eqb_refl. reflexivity.
  - rewrite (typed_after selector text1), (typed_after selector text2).
    destruct y as [u p|s0|selector0 text0 pe0|s0 t0|s0 st0 tm0|s0 tm0
                  |s0 t0 tm0|ms|nm];
      try (rewrite typed_after, String.eqb_refl; reflexivity).
    destruct (String.eqb selector0 selector) eqn:E.
    + rewrite typed_after, E. reflexivity.
    + rewrite typed_after, String.eqb_refl. reflexivity.
Qed.

(** X21. The Enter key marks the type step that was just recorded, and pressing
    it again changes nothing more. *)
Theorem enter_marks_the_last_type_step
  (selector text : string) (steps : list Step) :
  let typed := Builder.recordedSteps (Builder.typed selector text) steps in
  let entered := Builder.recordedSteps (Builder.keyed "Enter") typed in
  (exists pressEnter, last typed = Some (TypeStep selector text pressEnter))
  /\ last entered = Some (TypeStep selector text (Some true))
  /\ List.length entered = List.length typed
  /\ Builder.recordedSteps (Builder.keyed "Enter") entered = entered.
Proof.
  intros typed entered.
  assert (Htyped : exists l pressEnter,
            typed = l ++ [TypeStep selector text pressEnter]).
  { subst typed. destruct steps as [|y l _] using rev_ind.
    - exists [], None. reflexivity.
    - rewrite typed_after.
      destruct y as [u p|s0|selector0 text0 pe0|s0 t0|s0 st0 tm0|s0 tm0
                    |s0 t0 tm0|ms|nm];
        try (eexists _, _; reflexivity).
      destruct (String.eqb selector0 selector) eqn:E.
      + apply String.eqb_eq in E. subst selector0.
        eexists _, _; reflexivity.
      + eexists _, _; reflexivity. }
  destruct Htyped as (l & pressEnter & Htyped).
  assert (Hentered : entered = l ++ [TypeStep selector text (Some true)]).
  { subst entered. rewrite Htyped. cbn [Builder.recordedSteps].
    simpl String.eqb. cbn iota. rewrite last_snoc. apply setLast_snoc. }
  split; [exists pressEnter; rewrite Htyped; apply last_snoc|].
  split; [rewrite Hentered; apply last_snoc|].
  split; [rewrite Hentered, Htyped, !length_app; reflexivity|].
  rewrite Hentered. cbn [Builder.recordedSteps].
  simpl String.eqb. cbn iota. rewrite last_snoc. apply setLast_snoc.
Qed.

Lemma filterOutIndex_spec {A} (i : nat) (steps : list A) : forall idx,
  (idx <= i)%nat ->
  Builder.filterOutIndex i idx steps
  = take (i - idx) steps ++ drop (S (i - idx)) steps.
Proof.
  induction steps as [|x rest IH]; intros idx Hle; simpl.
  - now rewrite take_nil.
  - destruct (Nat.eqb_spec idx i) as [->|Hne]; simpl.
    + replace (i - i)%nat with 0%nat by lia. simpl. rewrite drop_0.
      clear IH Hle. generalize (S i), (Nat.lt_succ_diag_r i).
      induction rest as [|y rest IH]; intros k Hk; simpl; [reflexivity|].
      destruct (Nat.eqb_spec k i) as [->|_]; [lia|]. simpl.
      f_equal. apply IH. lia.
    + rewrite (IH (S idx)) by lia.
      replace (i - idx)%nat with (S (i - S idx)) by lia. reflexivity.
Qed.

(** X22. Deleting the step at position [i] removes that step and no other;
    at a position past the end it changes nothing; deleting the step that
    was just added gives the test back. *)
Theorem removeStep_deletes_position (i : nat) (s : Step) (t : TestDef.t) :
  TestDef.steps (Builder.removeStep i t)
  = take i (TestDef.steps t) ++ drop (S i) (TestDef.steps t)
  /\ ((List.length (TestDef.steps t) <= i)%nat -> Builder.removeStep i t = t)
  /\ Builder.removeStep (List.length (TestDef.steps t)) (Builder.addStep s t)
     = t.
Proof.
  assert (Hspec : forall l : list Step,
            Builder.filterOutIndex i 0 l = take i l ++ drop (S i) l).
  { intros l. rewrite filterOutIndex_spec by lia.
    now rewrite Nat.sub_0_r. }
  split; [apply Hspec|]. split.
  - intros Hle. unfold Builder.removeStep. rewrite Hspec.
    rewrite take_ge, drop_ge, app_nil_r by lia.
    destruct t; reflexivity.
  - unfold Builder.removeStep, Builder.addStep, Builder.withSteps. simpl.
    rewrite filterOutIndex_spec by lia. rewrite Nat.sub_0_r.
    rewrite take_app_length.
    rewrite drop_ge by (rewrite length_app; simpl; lia).
    rewrite app_nil_r. destruct t; reflexivity.
Qed.

Lemma geb_false (a b : Z) : (a < b)%Z -> (a >=? b)%Z = false.
Proof. intros H. rewrite Z.geb_leb. apply Z.leb_gt. exact H. Qed.

Lemma geb_true (a b : Z) : (b <= a)%Z -> (a >=? b)%Z = true.
Proof. intros H. rewrite Z.geb_leb. apply Z.leb_le. exact H. Qed.

Lemma swap_adjacent (l1 l2 : list Step) (x y : Step) :
  Builder.swap (List.length l1) (S (List.length l1)) (l1 ++ x :: y :: l2)
  = l1 ++ y :: x :: l2
  /\ Builder.swap (S (List.length l1)) (List.length l1) (l1 ++ x :: y :: l2)
     = l1 ++ y :: x :: l2.
Proof.
  assert (H0 : (l1 ++ x :: y :: l2) !! List.length l1 = Some x).
  { apply list_lookup_middle. reflexivity. }
  assert (H1 : (l1 ++ x :: y :: l2) !! S (List.length l1) = Some y).
  { rewrite lookup_app_r by lia.
    now replace (S (List.length l1) - List.length l1)%nat with 1%nat by lia. }
  unfold Builder.swap. rewrite H0, H1. split.
  - rewrite (insert_app_r_alt l1 _ (List.length l1)) by lia.
    rewrite insert_app_r_alt by lia.
    replace (List.length l1 - List.length l1)%nat with 0%nat by lia.
    now replace (S (List.length l1) - List.length l1)%nat with 1%nat by lia.
  - rewrite (insert_app_r_alt l1 _ (S (List.length l1))) by lia.
    rewrite insert_app_r_alt by lia.
    replace (List.length l1 - List.length l1)%nat with 0%nat by lia.
    now replace (S (List.length l1) - List.length l1)%nat with 1%nat by lia.
Qed.

Lemma split_at_pair {A} (i : nat) (l : list A) :
  (i + 1 < List.length l)%nat ->
  exists l1 x y l2, l = l1 ++ x :: y :: l2 /\ List.length l1 = i.
Proof.
  intros Hlt.
  exists (take i l).
  destruct (drop i l) as [|x [|y l2]] eqn:Hd.
  - apply (f_equal (@List.length _)) in Hd. rewrite length_drop in Hd.
    simpl in Hd. lia.
  - apply (f_equal (@List.length _)) in Hd. rewrite length_drop in Hd.
    simpl in Hd. lia.
  - exists x, y, l2. split.
    + rewrite <- Hd. symmetry. apply take_drop.
    + rewrite length_take. lia.
Qed.

Lemma moveStep_down (t : TestDef.t) (l1 l2 : list Step) (x y : Step) :
  TestDef.steps t = l1 ++ x :: y :: l2 ->
  Builder.moveStep (List.length l1) Builder.down t
  = Builder.withSteps t (l1 ++ y :: x :: l2).
Proof.
  intros Hl. unfold Builder.moveStep. rewrite Hl. simpl Builder.offset.
  rewrite length_app. simpl.
  replace (Z.of_nat (List.length l1) + 1 <? 0)%Z with false
    by (symmetry; apply Z.ltb_ge; lia).
  replace (Z.of_nat (List.length l1) + 1
           >=? Z.of_nat (List.length l1 + S (S (List.length l2))))%Z
    with false by (symmetry; apply geb_false; lia).
  simpl.
  replace (Z.to_nat (Z.of_nat (List.length l1) + 1))
    with (S (List.length l1)) by lia.
  now rewrite (proj1 (swap_adjacent l1 l2 x y)).
Qed.

Lemma moveStep_up (t : TestDef.t) (l1 l2 : list Step) (x y : Step) :
  TestDef.steps t = l1 ++ x :: y :: l2 ->
  Builder.moveStep (S (List.length l1)) Builder.up t
  = Builder.withSteps t (l1 ++ y :: x :: l2).
Proof.
  intros Hl. unfold Builder.moveStep. rewrite Hl. simpl Builder.offset.
  rewrite length_app. simpl List.length.
  replace (Z.of_nat (S (List.length l1)) + -1 <? 0)%Z with false
    by (symmetry; apply Z.ltb_ge; lia).
  replace (Z.of_nat (S (List.length l1)) + -1
           >=? Z.of_nat (List.length l1 + S (S (List.length l2))))%Z
    with false by (symmetry; apply geb_false; lia).
  cbn [orb].
  replace (Z.to_nat (Z.of_nat (S (List.length l1)) + -1))
    with (List.length l1) by lia.
  now rewrite (proj2 (swap_adjacent l1 l2 x y)).
Qed.

(** X23. Moving the step at position [i] (a position that holds a step) up or
    down exchanges it with its neighbour and keeps all the steps; the first
    step cannot go up nor the last one down; moving a step down and then
    the same step up again gives the test back. *)
Theorem moveStep_swaps_neighbours (i : nat) (t : TestDef.t) :
  (i < List.length (TestDef.steps t))%nat ->
  Builder.moveStep 0 Builder.up t = t
  /\ Builder.moveStep (List.length (TestDef.steps t) - 1) Builder.down t = t
  /\ (forall dir,
        Permutation (TestDef.steps (Builder.moveStep i dir t))
                    (TestDef.steps t))
  /\ ((i + 1 < List.length (TestDef.steps t))%nat ->
      exists l1 x y l2,
        TestDef.steps t = l1 ++ x :: y :: l2
        /\ List.length l1 = i
        /\ TestDef.steps (Builder.moveStep i Builder.down t)
           = l1 ++ y :: x :: l2
        /\ Builder.moveStep (i + 1) Builder.up
             (Builder.moveStep i Builder.down t) = t).
Proof.
  intros Hi.
  assert (Hdown : (i + 1 < List.length (TestDef.steps t))%nat ->
                  exists l1 x y l2,
                    TestDef.steps t = l1 ++ x :: y :: l2
                    /\ List.length l1 = i
                    /\ TestDef.steps (Builder.moveStep i Builder.down t)
                       = l1 ++ y :: x :: l2
                    /\ Builder.moveStep (i + 1) Builder.up
                         (Builder.moveStep i Builder.down t) = t).
  { intros Hlt.
    destruct (split_at_pair i (TestDef.steps t) Hlt)
      as (l1 & x & y & l2 & Hl & Hlen).
    exists l1, x, y, l2. split; [exact Hl|]. split; [exact Hlen|].
    subst i. rewrite (moveStep_down t l1 l2 x y Hl). split; [reflexivity|].
    replace (List.length l1 + 1)%nat with (S (List.length l1)) by lia.
    rewrite (moveStep_up _ l1 l2 y x) by reflexivity.
    unfold Builder.withSteps. simpl. rewrite <- Hl. destruct t; reflexivity. }
  split; [reflexivity|]. split.
  - unfold Builder.moveStep. simpl Builder.offset.
    replace (Z.of_nat (List.length (TestDef.steps t) - 1) + 1
             >=? Z.of_nat (List.length (TestDef.steps t)))%Z with true
      by (symmetry; apply geb_true; lia).
    now rewrite orb_true_r.
  - split; [|exact Hdown].
    intros [|].
    + (* up *)
      destruct i as [|k]; [reflexivity|].
      assert (Hk : (k + 1 < List.length (TestDef.steps t))%nat) by lia.
      destruct (split_at_pair k (TestDef.steps t) Hk)
        as (l1 & x & y & l2 & Hl & Hlen).
      subst k. rewrite (moveStep_up t l1 l2 x y Hl). simpl. rewrite Hl.
      apply Permutation_app_head, perm_swap.
    + (* down *)
      destruct (Nat.lt_ge_cases (i + 1) (List.length (TestDef.steps t)))
        as [Hlt|Hge].
      * destruct (Hdown Hlt) as (l1 & x & y & l2 & Hl & _ & Hs & _).
        rewrite Hs, Hl. apply Permutation_app_head, perm_swap.
      * unfold Builder.moveStep. simpl Builder.offset.
        replace (Z.of_nat i + 1
                 >=? Z.of_nat (List.length (TestDef.steps t)))%Z with true
          by (symmetry; apply geb_true; lia).
        now rewrite orb_true_r.
Qed.

Lemma cssEscape_cons (c : ascii) (s : string) :
  Builder.cssEscape (String c s)
  = (Builder.escapedChar c ++ Builder.cssEscape s)%string.
Proof.
  unfold Builder.cssEscape, Builder.escapedChar. simpl.
  destruct (Ascii.eqb c Builder.backslash) eqn:Eb.
  - reflexivity.
  - simpl. destruct (Ascii.eqb c Builder.quote); reflexivity.
Qed.

(** X24. [cssEscape] loses nothing: two different texts have different escaped
    forms; a text without backslash and double quote is left as it is. *)
Theorem cssEscape_is_injective (s1 s2 : string) :
  (Builder.cssEscape s1 = Builder.cssEscape s2 -> s1 = s2)
  /\ (allChars (fun c => negb (Ascii.eqb c Builder.backslash
                               || Ascii.eqb c Builder.quote)) s1 = true
      -> Builder.cssEscape s1 = s1).
Proof.
  split.
  - revert s2. induction s1 as [|c1 s1 IH]; intros s2 H.
    + destruct s2 as [|c2 s2]; [reflexivity|].
      rewrite cssEscape_cons in H. unfold Builder.escapedChar in H.
      destruct (Ascii.eqb c2 Builder.backslash); [discriminate|].
      destruct (Ascii.eqb c2 Builder.quote); discriminate.
    + destruct s2 as [|c2 s2].
      * rewrite cssEscape_cons in H. unfold Builder.escapedChar in H.
        destruct (Ascii.eqb c1 Builder.backslash); [discriminate|].
        destruct (Ascii.eqb c1 Builder.quote); discriminate.
      * rewrite !cssEscape_cons in H. unfold Builder.escapedChar in H.
        destruct (Ascii.eqb c1 Builder.backslash) eqn:B1;
          destruct (Ascii.eqb c2 Builder.backslash) eqn:B2;
          destruct (Ascii.eqb c1 Builder.quote) eqn:Q1;
          destruct (Ascii.eqb c2 Builder.quote) eqn:Q2;
          rewrite ?Ascii.eqb_eq in *; subst; simpl in H;
          try discriminate;
          try (inversion H; subst;
               rewrite ?Ascii.eqb_refl in *; try discriminate;
               f_equal; now apply IH);
          try (inversion H; subst; try discriminate;
               match goal with
               | E : Ascii.eqb ?a ?a = false |- _ =>
                   rewrite Ascii.eqb_refl in E; discriminate
               end).
  - induction s1 as [|c s IH]; intros H; [reflexivity|].
    simpl in H. apply andb_true_iff in H as [Hc Hs].
    rewrite cssEscape_cons, (IH Hs). unfold Builder.escapedChar.
    apply negb_true_iff, orb_false_iff in Hc as [Hb Hq].
    now rewrite Hb, Hq.
Qed.

(* ===================================================================== *)
(** ** Instances of the conditional properties *)
(* ===================================================================== *)

Lemma navigate_target_witness :
  Scripted.base <> ""
  /\ action (PW := Scripted.playwright)
       (HOST := Scripted.host Scripted.loginTest Scripted.sighted)
       Scripted.base Scripted.outDir 1 (NavigateStep None None)
       (fresh Scripted.sighted)
     = call (page_goto (Playwright := Scripted.playwright) Scripted.base)
         (fresh Scripted.sighted).
Proof.
  assert (Hbase : Scripted.base <> "") by discriminate.
  split; [exact Hbase|].
  destruct (navigate_target (PW := Scripted.playwright)
              (HOST := Scripted.host Scripted.loginTest Scripted.sighted)
              Scripted.base Scripted.outDir 1 None (fresh Scripted.sighted)
              Hbase) as (_ & _ & Hnone & _).
  exact (Hnone eq_refl).
Defined.

Lemma expectText_passes_iff_witness :
  snd (action (PW := Scripted.playwright)
         (HOST := Scripted.host Scripted.loginTest Scripted.sighted)
         Scripted.base Scripted.outDir 1
         (ExpectTextStep "#welcome" "" None) (fresh Scripted.sighted))
  = Ok tt
  <-> exists c, Some "#welcome" = Some c /\ c <> "" /\ includes c "" = true.
Proof.
  destruct (expectText_passes_iff (PW := Scripted.playwright)
              (HOST := Scripted.host Scripted.loginTest Scripted.sighted)
              Scripted.base Scripted.outDir 1 "#welcome" "" None
              (fresh Scripted.sighted) (fresh Scripted.sighted)
              (fresh Scripted.sighted) (Some "#welcome")
              eq_refl eq_refl) as [_ Hiff].
  exact Hiff.
Defined.

Lemma no_tolerance_means_zero_signals_witness :
  verdictOf Scripted.argv Tolerate.empty []
    (signals [] [] [] [Scripted.unauthorized]) = true
  <-> @nil StepError.t = []
      /\ signals [] [] [] [Scripted.unauthorized] = signals [] [] [] [].
Proof.
  destruct (no_tolerance_means_zero_signals (RE := Scripted.literalEngine)
              Scripted.argv [] (signals [] [] [] [Scripted.unauthorized]))
    as [_ Hverdict].
  exact (Hverdict eq_refl eq_refl eq_refl eq_refl).
Defined.

Lemma toggles_do_not_filter_witness :
  filterSignals (RE := Scripted.literalEngine) Tolerate.empty
    (signals [] ["TypeError: x is undefined"] [] [])
  = filterSignals (RE := Scripted.literalEngine) Scripted.pagesTolerated
      (signals [] ["TypeError: x is undefined"] [] []).
Proof.
  exact (toggles_do_not_filter (RE := Scripted.literalEngine)
           Tolerate.empty Scripted.pagesTolerated
           (signals [] ["TypeError: x is undefined"] [] [])
           eq_refl eq_refl eq_refl).
Defined.

Lemma allowlists_are_sets_witness :
  filterSignals (RE := Scripted.literalEngine)
    (Tolerate.mk None None None None (Some [401; 400; 401]%Z) None (Some []))
    (signals [] [] [] [Scripted.unauthorized])
  = filterSignals (RE := Scripted.literalEngine)
      (Tolerate.mk (Some false) None None None (Some [400; 401]%Z) None None)
      (signals [] [] [] [Scripted.unauthorized]).
Proof.
  apply (allowlists_are_sets (RE := Scripted.literalEngine) Scripted.argv
           (Tolerate.mk None None None None (Some [401; 400; 401]%Z) None
              (Some []))
           (Tolerate.mk (Some false) None None None (Some [400; 401]%Z) None
              None)
           [] (signals [] [] [] [Scripted.unauthorized])).
  - unfold toleratesMore; simpl.
    repeat split; try (intros H; exact H); intros x Hx; simpl in *; tauto.
  - unfold toleratesMore; simpl.
    repeat split; try (intros H; exact H); intros x Hx; simpl in *; tauto.
Defined.

Lemma run_rejects_without_baseUrl_witness :
  TestDef.baseUrl Scripted.loginTest = Some Scripted.base
  /\ exitStatus (PW := Scripted.playwright) (RE := Scripted.literalEngine)
       (HOST := Scripted.host Scripted.loginTest Scripted.sighted)
       (Argv.mk "tests/flow.yml" (Some "") "reports" true 0%Z
          false false false false)
     = 1%Z.
Proof.
  split; [reflexivity|].
  destruct (run_rejects_without_baseUrl (PW := Scripted.playwright)
              (RE := Scripted.literalEngine)
              (HOST := Scripted.host Scripted.loginTest Scripted.sighted)
              (Argv.mk "tests/flow.yml" (Some "") "reports" true 0%Z
                 false false false false)
              Scripted.loginTest eq_refl (or_introl eq_refl))
    as [_ Hexit].
  exact Hexit.
Defined.

Lemma run_resolves_whatever_the_page_does_witness :
  exists s,
    run (PW := Scripted.playwright) (RE := Scripted.literalEngine)
        (HOST := Scripted.host Scripted.loginTest Scripted.blind)
        Scripted.argv = Ok s.
Proof.
  assert (Hbase : Scripted.base <> "") by discriminate.
  destruct (run_resolves_whatever_the_page_does
              (PW := Scripted.playwright) (RE := Scripted.literalEngine)
              (HOST := Scripted.host Scripted.loginTest Scripted.blind)
              Scripted.argv Scripted.loginTest Scripted.base Scripted.blind
              eq_refl eq_refl Hbase (fun _ => eq_refl) eq_refl
              (fun _ => eq_refl) (fun _ _ => eq_refl)) as [Hrun _].
  exact Hrun.
Defined.

Lemma run_summary_is_consistent_witness :
  match run (PW := Scripted.playwright) (RE := Scripted.literalEngine)
            (HOST := Scripted.host Scripted.loginTest Scripted.sighted)
            Scripted.argv with
  | Ok s =>
      Summary.testName s = "Login flow"
      /\ (List.length (Summary.stepErrors s) <= 5)%nat
  | Throw _ => False
  end.
Proof.
  destruct (run (PW := Scripted.playwright) (RE := Scripted.literalEngine)
              (HOST := Scripted.host Scripted.loginTest Scripted.sighted)
              Scripted.argv) as [s|e] eqn:Hrun.
  - destruct (run_summary_is_consistent (PW := Scripted.playwright)
                (RE := Scripted.literalEngine)
                (HOST := Scripted.host Scripted.loginTest Scripted.sighted)
                Scripted.argv Scripted.loginTest s eq_refl Hrun)
      as (Hname & _ & _ & _ & _ & _ & Hlen & _).
    split; [exact Hname | exact Hlen].
  - vm_compute in Hrun. discriminate.
Defined.

Lemma stamp_has_no_colon_or_dot_witness :
  dash_colons_dots "2024-05-01T10-20-30-456Z" = "2024-05-01T10-20-30-456Z".
Proof.
  destruct (stamp_has_no_colon_or_dot "2024-05-01T10-20-30-456Z")
    as (_ & _ & Hsame).
  exact (Hsame eq_refl).
Defined.

Lemma onMsg_touches_only_the_last_step_witness :
  Builder.onMsg "k3x9"
    (Some (Builder.message "wt-recorder" "other"
             (Builder.clicked "#submit")))
    Scripted.plainTest
  = Scripted.plainTest.
Proof.
  destruct (onMsg_touches_only_the_last_step "k3x9"
              (Some (Builder.message "wt-recorder" "other"
                       (Builder.clicked "#submit")))
              Scripted.plainTest) as (_ & _ & _ & _ & _ & _ & Hforeign).
  apply (Hforeign _ eq_refl). right. discriminate.
Defined.

Lemma removeStep_deletes_position_witness :
  Builder.removeStep 7 Scripted.shotTest = Scripted.shotTest.
Proof.
  destruct (removeStep_deletes_position 7 (ClickStep "#open")
              Scripted.shotTest) as (_ & Hpast & _).
  apply Hpast. simpl. lia.
Defined.

Lemma moveStep_swaps_neighbours_witness :
  (0 < List.length (TestDef.steps Scripted.shotTest))%nat
  /\ TestDef.steps (Builder.moveStep 0 Builder.down Scripted.shotTest)
     = [ScreenshotStep None; ClickStep "#open"].
Proof.
  assert (Hpos : (0 < List.length (TestDef.steps Scripted.shotTest))%nat)
    by (simpl; lia).
  split; [exact Hpos|].
  destruct (moveStep_swaps_neighbours 0 Scripted.shotTest Hpos)
    as (_ & _ & _ & Hdown).
  assert (Hlt : (0 + 1 < List.length (TestDef.steps Scripted.shotTest))%nat)
    by (simpl; lia).
  destruct (Hdown Hlt) as (l1 & x & y & l2 & Hl & Hlen & Hmoved & _).
  destruct l1 as [|z l1]; [|discriminate].
  simpl in Hl. inversion Hl. subst x y l2. exact Hmoved.
Defined.

Lemma cssEscape_is_injective_witness :
  Builder.cssEscape "submit-button" = "submit-button".
Proof.
  destruct (cssEscape_is_injective "submit-button" "") as [_ Hplain].
  exact (Hplain eq_refl).
Defined.
